(** * Blackjack card-counting simulator

    A shallow embedding of the simulation engine of
    [blackjack_simulation.py]: the shoe and the Hi-Lo count, the betting
    policy, the outcome model, one simulated run and the padding of a
    batch of runs.

    Numbers.  Python's [int] is [Z].  The engine's [float] values (true
    count, bet, bankroll) are read as exact rationals [Q]; every property
    proved on that reading is a property of order or of list structure.
    The one place where the source itself reasons about rounding, the
    probability normalisation, is embedded a second time on IEEE 754
    binary64 numbers in [Module Binary64].

    Exceptions.  An operation that can raise returns a [result].

    Randomness.  [random.shuffle] and [np.random.choice] draw from hidden
    generator state; here the generator is an explicit state [G] threaded
    through both calls. *)

From Stdlib Require Import String Floats.
From Stdlib Require Import ZArith QArith Qminmax Lqa Lia Bool List Permutation.
Import ListNotations.

Set Warnings "-inexact-float".

(** ** Python primitives *)

Inductive exn : Set :=
| ZeroDivisionError
| IndexError
| KeyError
| ValueError.

Inductive result (A : Type) : Type :=
| Ok (a : A)
| Raise (e : exn).

Arguments Ok {A} a.
Arguments Raise {A} e.

Definition bind {A B : Type} (r : result A) (k : A -> result B) : result B :=
  match r with
  | Ok a => k a
  | Raise e => Raise e
  end.

Notation "x <- r ;; k" := (bind r (fun x => k))
  (at level 61, r at next level, right associativity).
Notation "' p <- r ;; k" := (bind r (fun x => let p := x in k))
  (at level 61, p pattern, r at next level, right associativity).

Definition is_ok {A : Type} (r : result A) : bool :=
  match r with
  | Ok _ => true
  | Raise _ => false
  end.

Open Scope Q_scope.

Definition Qlt_bool (x y : Q) : bool := negb (Qle_bool y x).

(** [min(a, b)]: the first argument unless the second is smaller. *)
Definition py_min (a b : Q) : Q := if Qlt_bool b a then b else a.

(** [max(a, b)]: the first argument unless the second is larger. *)
Definition py_max (a b : Q) : Q := if Qlt_bool a b then b else a.

(** [int(x)] on a float: truncation toward zero. *)
Definition py_int (x : Q) : Z := Z.quot (Qnum x) (Zpos (Qden x)).

(** [a / b]: true division, [ZeroDivisionError] on a zero divisor. *)
Definition py_truediv (a b : Q) : result Q :=
  if Qeq_bool b 0 then Raise ZeroDivisionError else Ok (a / b).

(** [l * n] on a list: [n] copies of [l], one after the other. *)
Fixpoint list_mul {A : Type} (l : list A) (n : nat) : list A :=
  match n with
  | O => []
  | S n' => l ++ list_mul l n'
  end.

(** [l.pop()]: removes and returns the last element. *)
Definition pop {A : Type} (l : list A) : result (A * list A) :=
  match rev l with
  | [] => Raise IndexError
  | x :: r => Ok (x, rev r)
  end.

(** [d[k]] on a dict kept as an association list in insertion order. *)
Fixpoint dict_get {V : Type} (d : list (string * V)) (k : string) : result V :=
  match d with
  | [] => Raise KeyError
  | (k', v) :: d' => if String.eqb k' k then Ok v else dict_get d' k
  end.

Definition keys {V : Type} (d : list (string * V)) : list string := map fst d.

(** [r[-1]]: the last element, [IndexError] on an empty list. *)
Definition last_item {A : Type} (r : list A) : result A :=
  match rev r with
  | [] => Raise IndexError
  | x :: _ => Ok x
  end.

(** [max(len(r) for r in rs)]: [ValueError] on an empty sequence. *)
Definition max_len {A : Type} (rs : list (list A)) : result nat :=
  match rs with
  | [] => Raise ValueError
  | r :: rs' => Ok (fold_left (fun m r' => if (m <? length r')%nat then length r' else m)
                              rs' (length r))
  end.

(** ** Hi-Lo card values and the shoe *)

Open Scope string_scope.

Definition card_values : list (string * Z) :=
  [ ("2", 1%Z); ("3", 1%Z); ("4", 1%Z); ("5", 1%Z); ("6", 1%Z);
    ("7", 0%Z); ("8", 0%Z); ("9", 0%Z);
    ("10", (-1)%Z); ("J", (-1)%Z); ("Q", (-1)%Z); ("K", (-1)%Z); ("A", (-1)%Z) ].

Close Scope string_scope.

(** [cards = list(card_values.keys()) * 4 * num_decks] *)
Definition cards (num_decks : nat) : list string :=
  list_mul (list_mul (keys card_values) 4) num_decks.

Definition is_rank (c : string) : Prop := In c (keys card_values).

(** ** Count tracker *)

Definition get_true_count (running_count decks_remaining : Q) : result Q :=
  if Qlt_bool 0 decks_remaining
  then py_truediv running_count decks_remaining
  else Ok 0.

(** [len(deck) / 52] *)
Definition decks_remaining (cards_remaining : nat) : Q :=
  inject_Z (Z.of_nat cards_remaining) / 52.

(** ** Outcome model, on binary64 floats *)

Module Binary64.

Open Scope float_scope.

Definition py_min (a b : float) : float := if b <? a then b else a.
Definition py_max (a b : float) : float := if a <? b then b else a.

(** [float(n)] for an [int]; exact below 2^53 in absolute value. *)
Definition of_int (n : Z) : float :=
  if (n <? 0)%Z
  then - PrimFloat.of_uint63 (Uint63.of_Z (- n))
  else PrimFloat.of_uint63 (Uint63.of_Z n).

(** [len(deck) / 52] *)
Definition decks_remaining (cards_remaining : Z) : float :=
  of_int cards_remaining / 52.

Definition get_true_count (running_count : Z) (decks_remaining : float) : float :=
  if 0 <? decks_remaining then of_int running_count / decks_remaining else 0.

Definition win_prob (true_count : float) : float :=
  0.48 + py_min (0.01 * py_max 0 (true_count - 1)) 0.05.

(** Lines 72-79: the three probabilities handed to the sampler. *)
Definition outcome_probs (true_count : float) : float * float * float :=
  let win_prob := win_prob true_count in
  let lose_prob := 1 - win_prob - 0.08 in
  let push_prob := 0.08 in
  let lose_prob :=
    if negb (win_prob + lose_prob + push_prob =? 1.0)
    then
      let delta := 1.0 - (win_prob + lose_prob + push_prob) in
      lose_prob + delta
    else lose_prob in
  (win_prob, lose_prob, push_prob).

Definition prob_sum (p : float * float * float) : float :=
  let '(win_prob, lose_prob, push_prob) := p in
  win_prob + lose_prob + push_prob.

Close Scope float_scope.

End Binary64.

(** ** Configuration: the sidebar parameters *)

Record Config : Set := {
  initial_bankroll : Z;
  min_bet : Z;
  spread : Z;
  num_simulations : nat;
  num_hands : nat;
  num_decks : nat
}.

(** ** Betting policy (lines 66-69) *)

Definition bet_size (cfg : Config) (true_count bankroll : Q) : Q :=
  let bet := min_bet cfg in
  let bet :=
    if Qlt_bool 1 true_count
    then (bet * Z.min (spread cfg) (py_int true_count))%Z
    else bet in
  py_min bankroll (inject_Z bet).

(** ** Outcome model (lines 72-86), on exact rationals *)

Definition win_prob (true_count : Q) : Q :=
  0.48 + py_min (0.01 * py_max 0 (true_count - 1)) 0.05.

Definition outcome_probs (true_count : Q) : Q * Q * Q :=
  let win_prob := win_prob true_count in
  let lose_prob := 1 - win_prob - 0.08 in
  let push_prob := 0.08 in
  let lose_prob :=
    if negb (Qeq_bool (win_prob + lose_prob + push_prob) 1)
    then
      let delta := 1 - (win_prob + lose_prob + push_prob) in
      lose_prob + delta
    else lose_prob in
  (win_prob, lose_prob, push_prob).

Inductive outcome : Set := win | lose | push.

Definition settle (o : outcome) (bankroll bet : Q) : Q :=
  match o with
  | win => bankroll + bet * 1.5
  | lose => bankroll - bet
  | push => bankroll
  end.

(** ** Run simulator (lines 49-92) *)

Record RunState : Type := {
  deck : list string;
  running_count : Z;
  bankroll : Q;
  bankrolls : list Q
}.

(** Ruin is terminal: a recorded value at or below zero is the last one. *)
Definition ruin_last (t : list Q) : Prop :=
  forall (i : nat) (b : Q), nth_error t i = Some b -> b <= 0 -> S i = length t.

(** The shoe holds ranks only, and no more than a full shoe of them. *)
Definition shoe_ok (cfg : Config) (s : RunState) : Prop :=
  (length (deck s) <= 52 * num_decks cfg)%nat /\ Forall is_rank (deck s).

Section Engine.

Context {G : Type}.

(** [random.shuffle]: the generator state and a list in, both out. *)
Variable shuffle : G -> list string -> G * list string.

(** [np.random.choice(["win", "lose", "push"], p=[...])] *)
Variable choice : G -> Q * Q * Q -> G * outcome.

Variable cfg : Config.

(** Lines 50-54. *)
Definition start (g : G) : G * RunState :=
  let (g, deck) := shuffle g (cards (num_decks cfg)) in
  (g, {| deck := deck;
         running_count := 0;
         bankroll := inject_Z (initial_bankroll cfg);
         bankrolls := [] |}).

(** Lines 57-60: the reshuffle check that precedes every draw. *)
Definition reshuffle_check (g : G) (s : RunState) : G * RunState :=
  if (length (deck s) <? 52)%nat
  then
    let (g, deck) := shuffle g (cards (num_decks cfg)) in
    (g, {| deck := deck;
           running_count := 0;
           bankroll := bankroll s;
           bankrolls := bankrolls s |})
  else (g, s).

(** Lines 57-87: one pass through the loop body. *)
Definition play_hand (g : G) (s : RunState) : result (G * RunState) :=
  let (g, s) := reshuffle_check g s in
  '(card, deck) <- pop (deck s) ;;
  value <- dict_get card_values card ;;
  let running_count := (running_count s + value)%Z in
  true_count <- get_true_count (inject_Z running_count)
                               (decks_remaining (length deck)) ;;
  let bet := bet_size cfg true_count (bankroll s) in
  let (g, outcome) := choice g (outcome_probs true_count) in
  let bankroll := settle outcome (bankroll s) bet in
  Ok (g, {| deck := deck;
            running_count := running_count;
            bankroll := bankroll;
            bankrolls := bankrolls s ++ [bankroll] |}).

(** Lines 56-90: [for _ in range(n)] with the [break] on ruin. *)
Fixpoint play_hands (n : nat) (g : G) (s : RunState) : result (G * RunState) :=
  match n with
  | O => Ok (g, s)
  | S n' =>
      '(g, s) <- play_hand g s ;;
      if Qle_bool (bankroll s) 0 then Ok (g, s) else play_hands n' g s
  end.

(** The generator and run states a run can be in at the top of the loop
    body: the initial one and those one more hand leads to. *)
Inductive reachable : G * RunState -> Prop :=
| reach_start (g : G) : reachable (start g)
| reach_hand (g : G) (s : RunState) (g' : G) (s' : RunState) :
    reachable (g, s) -> play_hand g s = Ok (g', s') -> reachable (g', s').

Definition simulate_single_run (g : G) : result (G * list Q) :=
  let (g, s) := start g in
  '(g, s) <- play_hands (num_hands cfg) g s ;;
  Ok (g, bankrolls s).

(** Line 95: [num_simulations] runs, one after the other. *)
Fixpoint simulate_runs (n : nat) (g : G) : result (G * list (list Q)) :=
  match n with
  | O => Ok (g, [])
  | S n' =>
      '(g, r) <- simulate_single_run g ;;
      '(g, rs) <- simulate_runs n' g ;;
      Ok (g, r :: rs)
  end.

Definition all_results (g : G) : result (G * list (list Q)) :=
  simulate_runs (num_simulations cfg) g.

End Engine.

(** ** Aggregator: padding (lines 96-97) *)

Fixpoint map_result {A B : Type} (f : A -> result B) (l : list A) : result (list B) :=
  match l with
  | [] => Ok []
  | a :: l' =>
      b <- f a ;;
      bs <- map_result f l' ;;
      Ok (b :: bs)
  end.

Definition pad_to {A : Type} (max_length : nat) (r : list A) : result (list A) :=
  x <- last_item r ;;
  Ok (r ++ list_mul [x] (max_length - length r)).

Definition padded_results {A : Type} (all_results : list (list A))
  : result (list (list A)) :=
  max_length <- max_len all_results ;;
  map_result (pad_to max_length) all_results.

(** ** A scripted random source, to run the engine on concrete inputs

    The generator state is the list of outcomes still to be handed out;
    shuffling reverses the list. *)

Module Scripted.

Definition shuffle (g : list outcome) (l : list string) : list outcome * list string :=
  (g, rev l).

Definition choice (g : list outcome) (p : Q * Q * Q) : list outcome * outcome :=
  match g with
  | [] => ([], push)
  | o :: g' => (g', o)
  end.

Definition cfg0 : Config :=
  {| initial_bankroll := 1000; min_bet := 500; spread := 10;
     num_simulations := 2; num_hands := 5; num_decks := 1 |}.

(** The state at the top of the loop body once [n] hands are played. *)
Definition after_hands (n : nat) (g : list outcome) : list outcome * RunState :=
  let (g0, s0) := start shuffle cfg0 g in
  match play_hands shuffle choice cfg0 n g0 s0 with
  | Ok gs => gs
  | Raise _ => (g0, s0)
  end.

(** After one hand on one deck 51 cards are left: the next hand starts
    with a reshuffle. *)
Definition g1 : list outcome := fst (after_hands 1 [win; lose]).
Definition s1 : RunState := snd (after_hands 1 [win; lose]).
Definition checked1 : RunState := snd (reshuffle_check shuffle cfg0 g1 s1).

Definition run (cfg : Config) (g : list outcome) : result (list Q) :=
  '(_, r) <- simulate_single_run shuffle choice cfg g ;;
  Ok (map Qred r).

End Scripted.

(** ** Aggregator: statistics (lines 98-104), on exact rationals

    [np.mean] is read as the exact arithmetic mean.  The standard
    deviation (line 101) is a square root and is left out. *)

Definition Qsum (l : list Q) : Q := fold_right Qplus 0 l.

(** [np.mean] of a vector. *)
Definition mean (l : list Q) : Q := Qsum l / inject_Z (Z.of_nat (length l)).

(** [array_results[:, -1]]: the last entry of every row. *)
Definition final_bankrolls (array_results : list (list Q)) : result (list Q) :=
  map_result last_item array_results.

(** [np.mean(array_results, axis=0)]: the mean of every column of a
    matrix of [max_length] columns. *)
Definition avg_bankroll (max_length : nat) (array_results : list (list Q)) : list Q :=
  map (fun j => mean (map (fun row => nth j row 0) array_results))
      (seq 0 max_length).

Definition roi (cfg : Config) (final_bankrolls : list Q) : Q :=
  ((mean final_bankrolls - inject_Z (initial_bankroll cfg))
   / inject_Z (initial_bankroll cfg)) * 100.

(** [final_bankrolls <= 0] as a vector of 0s and 1s. *)
Definition ruined (final_bankrolls : list Q) : list Q :=
  map (fun b => if Qle_bool b 0 then 1 else 0) final_bankrolls.

Definition risk_of_ruin (final_bankrolls : list Q) : Q :=
  mean (ruined final_bankrolls) * 100.

Record Summary : Type := {
  array_results : list (list Q);
  summary_avg_bankroll : list Q;
  summary_final_bankrolls : list Q;
  summary_roi : Q;
  summary_risk_of_ruin : Q
}.

(** Lines 95-104, from the generator state to the figures reported. *)
Definition run_simulations {G : Type}
    (shuffle : G -> list string -> G * list string)
    (choice : G -> Q * Q * Q -> G * outcome)
    (cfg : Config) (g : G) : result Summary :=
  '(_, all_results) <- all_results shuffle choice cfg g ;;
  max_length <- max_len all_results ;;
  padded_results <- padded_results all_results ;;
  final_bankrolls <- final_bankrolls padded_results ;;
  Ok {| array_results := padded_results;
        summary_avg_bankroll := avg_bankroll max_length padded_results;
        summary_final_bankrolls := final_bankrolls;
        summary_roi := roi cfg final_bankrolls;
        summary_risk_of_ruin := risk_of_ruin final_bankrolls |}.

(** ** Notions used to state properties of the shoe and of a run *)

(** How often a card occurs in a list. *)
Definition occurrences (c : string) (l : list string) : nat :=
  length (filter (String.eqb c) l).

(** The Hi-Lo value of a card, 0 for a string that is no rank. *)
Definition card_value (c : string) : Z :=
  match dict_get card_values c with
  | Ok v => v
  | Raise _ => 0%Z
  end.

Definition sum_by (f : string -> Z) (l : list string) : Z :=
  fold_right (fun c n => (f c + n)%Z) 0%Z l.

(** The Hi-Lo count of a list of cards. *)
Definition shoe_count (l : list string) : Z := sum_by card_value l.

(** The cards drawn since the last shuffle complete the shoe, and the
    running count is their Hi-Lo count. *)
Definition drawn_ok (cfg : Config) (s : RunState) : Prop :=
  exists drawn,
    Permutation (deck s ++ drawn) (cards (num_decks cfg))
    /\ running_count s = shoe_count drawn.

(** [chain P a t]: each element of [t] is related by [P] to the one
    before it, the first to [a]. *)
Fixpoint chain (P : Q -> Q -> Prop) (a : Q) (t : list Q) : Prop :=
  match t with
  | [] => True
  | b :: t' => P a b /\ chain P b t'
  end.

(** One hand takes a positive bankroll [a] to [b]: some wager of the
    policy, settled by some outcome. *)
Definition hand_step (cfg : Config) (a b : Q) : Prop :=
  0 < a /\ exists true_count o, b = settle o a (bet_size cfg true_count a).

(** ** Theorems *)

(** *** Comparisons, [min], [max] and [int] on rationals *)

Lemma Qlt_bool_iff (x y : Q) : Qlt_bool x y = true <-> x < y.
Proof.
  unfold Qlt_bool. rewrite negb_true_iff, <- not_true_iff_false, Qle_bool_iff.
  split; [apply Qnot_le_lt | apply Qlt_not_le].
Qed.

Lemma Qlt_bool_cases (x y : Q) :
  (Qlt_bool x y = true /\ x < y) \/ (Qlt_bool x y = false /\ y <= x).
Proof.
  destruct (Qlt_bool x y) eqn:E.
  - left. split; [reflexivity | now apply Qlt_bool_iff].
  - right. split; [reflexivity |].
    apply Qnot_lt_le. intro H. apply Qlt_bool_iff in H. congruence.
Qed.

Lemma py_min_cases (a b : Q) :
  (py_min a b = b /\ b < a) \/ (py_min a b = a /\ a <= b).
Proof.
  unfold py_min. destruct (Qlt_bool_cases b a) as [[-> H] | [-> H]]; auto.
Qed.

Lemma py_max_cases (a b : Q) :
  (py_max a b = b /\ a < b) \/ (py_max a b = a /\ b <= a).
Proof.
  unfold py_max. destruct (Qlt_bool_cases a b) as [[-> H] | [-> H]]; auto.
Qed.

Lemma py_int_ge_1 (x : Q) : 1 < x -> (1 <= py_int x)%Z.
Proof.
  destruct x as [n d]. unfold Qlt, py_int. simpl. intro H.
  apply Z.quot_le_lower_bound; lia.
Qed.

Lemma inject_Z_pos (z : Z) : (0 < z)%Z -> 0 < inject_Z z.
Proof. intro H. unfold Qlt. simpl. lia. Qed.

(** The wager before the clamp to the bankroll. *)
Lemma spread_multiplier_ge_1 (cfg : Config) (true_count : Q) :
  (1 <= spread cfg)%Z -> 1 < true_count ->
  (1 <= Z.min (spread cfg) (py_int true_count))%Z.
Proof. intros Hs Ht. apply py_int_ge_1 in Ht. lia. Qed.

Lemma bet_size_pos (cfg : Config) (true_count bankroll : Q) :
  0 < bankroll -> (0 < min_bet cfg)%Z -> (1 <= spread cfg)%Z ->
  0 < bet_size cfg true_count bankroll /\ bet_size cfg true_count bankroll <= bankroll.
Proof.
  intros Hb Hm Hs. unfold bet_size.
  set (bet := if Qlt_bool 1 true_count
              then (min_bet cfg * Z.min (spread cfg) (py_int true_count))%Z
              else min_bet cfg).
  assert (Hbet : 0 < inject_Z bet).
  { apply inject_Z_pos. subst bet.
    destruct (Qlt_bool_cases 1 true_count) as [[-> H] | [-> H]]; [| exact Hm].
    pose proof (spread_multiplier_ge_1 cfg true_count Hs H). nia. }
  destruct (py_min_cases bankroll (inject_Z bet)) as [[-> H] | [-> H]]; split; lra.
Qed.

(** *** Betting policy *)

(** C1: with a positive bankroll, a positive minimum bet and a spread of
    at least 1, the bet is at least 0 and at most the bankroll, whatever
    the true count. *)
Theorem C1_bet_within_bankroll (cfg : Config) (true_count bankroll : Q) :
  0 < bankroll -> (0 < min_bet cfg)%Z -> (1 <= spread cfg)%Z ->
  0 <= bet_size cfg true_count bankroll /\ bet_size cfg true_count bankroll <= bankroll.
Proof.
  intros Hb Hm Hs.
  destruct (bet_size_pos cfg true_count bankroll Hb Hm Hs) as [H1 H2].
  split; [lra | exact H2].
Qed.

Lemma C1_witness :
  0 <= bet_size Scripted.cfg0 (7 # 2) 1200 /\ bet_size Scripted.cfg0 (7 # 2) 1200 <= 1200.
Proof.
  apply (C1_bet_within_bankroll Scripted.cfg0 (7 # 2) 1200); simpl; [lra | lia | lia].
Defined.

(** C7, as stated, fails: with spread 1, minimum bet 300 and a bankroll
    of 100 (three lost hands after a start at 1000) the bet is 100, not
    300. *)
Lemma C7_counterexample :
  ~ (forall (cfg : Config) (true_count bankroll : Q),
        spread cfg = 1%Z -> bet_size cfg true_count bankroll == inject_Z (min_bet cfg)).
Proof.
  intro H.
  specialize (H {| initial_bankroll := 1000; min_bet := 300; spread := 1;
                   num_simulations := 1; num_hands := 100; num_decks := 8 |}
                0 100 eq_refl).
  vm_compute in H. discriminate H.
Qed.

(** C7, amended: with spread 1 the bet is [min(bankroll, min_bet)] for
    every true count, hence exactly [min_bet] whenever the bankroll
    covers the minimum bet. *)
Theorem C7_spread_one_bet (cfg : Config) (true_count bankroll : Q) :
  spread cfg = 1%Z ->
  bet_size cfg true_count bankroll = py_min bankroll (inject_Z (min_bet cfg))
  /\ (inject_Z (min_bet cfg) <= bankroll ->
      bet_size cfg true_count bankroll == inject_Z (min_bet cfg)).
Proof.
  intro Hs.
  assert (E : bet_size cfg true_count bankroll = py_min bankroll (inject_Z (min_bet cfg))).
  { unfold bet_size.
    destruct (Qlt_bool_cases 1 true_count) as [[-> H] | [-> H]]; [| reflexivity].
    pose proof (py_int_ge_1 true_count H). rewrite Hs.
    replace (Z.min 1 (py_int true_count)) with 1%Z by lia.
    now rewrite Z.mul_1_r. }
  split; [exact E |].
  intro Hle. rewrite E.
  destruct (py_min_cases bankroll (inject_Z (min_bet cfg))) as [[-> H] | [-> H]];
    [reflexivity | lra].
Qed.

Lemma C7_witness :
  bet_size (Build_Config 1000 100 1 1 100 8) (9 # 2) 750
    = py_min 750 (inject_Z 100)
  /\ (inject_Z 100 <= 750 ->
      bet_size (Build_Config 1000 100 1 1 100 8) (9 # 2) 750 == inject_Z 100).
Proof.
  apply (C7_spread_one_bet (Build_Config 1000 100 1 1 100 8) (9 # 2) 750).
  reflexivity.
Defined.

(** *** Count tracker *)

Lemma py_truediv_pos (a b : Q) : 0 < b -> py_truediv a b = Ok (a / b).
Proof.
  intro Hb. unfold py_truediv.
  destruct (Qeq_bool b 0) eqn:E; [| reflexivity].
  apply Qeq_bool_eq in E. lra.
Qed.

Lemma get_true_count_ok (running_count decks : Q) :
  exists t, get_true_count running_count decks = Ok t.
Proof.
  unfold get_true_count.
  destruct (Qlt_bool_cases 0 decks) as [[-> H] | [-> H]]; [| now exists 0].
  exists (running_count / decks). now apply py_truediv_pos.
Qed.

(** C8: [get_true_count] raises for no input; with [n > 0] cards left it
    returns [running_count / (n / 52)], and with none left it returns 0. *)
Theorem C8_get_true_count_total :
  (forall running_count decks, exists t, get_true_count running_count decks = Ok t)
  /\ (forall running_count n, (0 < n)%nat ->
        get_true_count running_count (decks_remaining n)
          = Ok (running_count / (inject_Z (Z.of_nat n) / 52)))
  /\ (forall running_count, get_true_count running_count (decks_remaining 0) = Ok 0).
Proof.
  split; [exact get_true_count_ok | split].
  - intros rc n Hn. unfold get_true_count, decks_remaining.
    assert (Hpos : 0 < inject_Z (Z.of_nat n) / 52).
    { apply Qlt_shift_div_l; [reflexivity |].
      rewrite Qmult_0_l. apply inject_Z_pos. lia. }
    rewrite (proj2 (Qlt_bool_iff _ _) Hpos). now apply py_truediv_pos.
  - intros rc. reflexivity.
Qed.

Lemma C8_witness :
  get_true_count 3 (decks_remaining 51) = Ok (3 / (inject_Z (Z.of_nat 51) / 52)).
Proof.
  apply (proj1 (proj2 C8_get_true_count_total) 3 51%nat). lia.
Defined.

(** *** Outcome model *)

Lemma win_prob_monotone (t1 t2 : Q) : t1 <= t2 -> win_prob t1 <= win_prob t2.
Proof.
  intro H. unfold win_prob.
  destruct (py_max_cases 0 (t1 - 1)) as [[E1 H1] | [E1 H1]];
  destruct (py_max_cases 0 (t2 - 1)) as [[E2 H2] | [E2 H2]];
  rewrite E1, E2;
  match goal with
  | |- _ + py_min ?a _ <= _ + py_min ?b _ =>
      destruct (py_min_cases a 0.05) as [[Ea Ha] | [Ea Ha]];
      destruct (py_min_cases b 0.05) as [[Eb Hb] | [Eb Hb]]
  end; rewrite ?Ea, ?Eb; lra.
Qed.

(** C6: on exact rationals, the win probability does not decrease as the
    true count grows above 1, and it never exceeds 0.53. *)
Theorem C6_win_prob_monotone_capped :
  (forall t1 t2 : Q, 1 < t1 -> t1 <= t2 -> win_prob t1 <= win_prob t2)
  /\ (forall t : Q, win_prob t <= 0.53).
Proof.
  split.
  - intros t1 t2 _ H. now apply win_prob_monotone.
  - intro t. unfold win_prob.
    destruct (py_min_cases (0.01 * py_max 0 (t - 1)) 0.05) as [[-> H] | [-> H]]; lra.
Qed.

Lemma C6_witness : win_prob 2 <= win_prob (7 # 2).
Proof.
  apply (proj1 C6_win_prob_monotone_capped 2 (7 # 2)); lra.
Defined.

(** *** Lists, the dict and the shoe *)

Lemma list_mul_length {A : Type} (l : list A) (n : nat) :
  length (list_mul l n) = (length l * n)%nat.
Proof.
  induction n as [| n IH]; simpl; [lia |].
  rewrite length_app, IH. lia.
Qed.

Lemma list_mul_Forall {A : Type} (P : A -> Prop) (l : list A) (n : nat) :
  Forall P l -> Forall P (list_mul l n).
Proof.
  intro H. induction n as [| n IH]; simpl; [constructor |].
  apply Forall_app. now split.
Qed.

Lemma list_mul_singleton {A : Type} (x : A) (n : nat) : list_mul [x] n = repeat x n.
Proof. induction n as [| n IH]; simpl; [reflexivity | now rewrite IH]. Qed.

Lemma cards_length (n : nat) : length (cards n) = (52 * n)%nat.
Proof. unfold cards. rewrite !list_mul_length. simpl. lia. Qed.

Lemma cards_ranks (n : nat) : Forall is_rank (cards n).
Proof.
  unfold cards. do 2 apply list_mul_Forall.
  apply Forall_forall. intros c H. exact H.
Qed.

Lemma dict_get_key {V : Type} (d : list (string * V)) (k : string) :
  In k (keys d) -> exists v, dict_get d k = Ok v.
Proof.
  induction d as [| [k' v] d IH]; simpl; [contradiction |].
  intros [H | H].
  - subst k'. rewrite String.eqb_refl. now exists v.
  - destruct (String.eqb k' k); [now exists v | now apply IH].
Qed.

Lemma pop_snoc {A : Type} (l : list A) (x : A) : pop (l ++ [x]) = Ok (x, l).
Proof. unfold pop. rewrite rev_app_distr. simpl. now rewrite rev_involutive. Qed.

Lemma pop_inv {A : Type} (l r : list A) (x : A) : pop l = Ok (x, r) -> l = r ++ [x].
Proof.
  unfold pop. destruct (rev l) as [| y t] eqn:E; [discriminate |].
  intro H. injection H as -> <-.
  rewrite <- (rev_involutive l), E. reflexivity.
Qed.

Lemma pop_nonempty {A : Type} (l : list A) :
  (0 < length l)%nat -> exists x r, pop l = Ok (x, r) /\ l = r ++ [x].
Proof.
  intro H. destruct (exists_last (l := l)) as [r [x E]].
  - intro E. subst l. simpl in H. lia.
  - exists x, r. subst l. split; [apply pop_snoc | reflexivity].
Qed.

Lemma positive_prefix_ruin_last (t pre : list Q) :
  Forall (fun b => 0 < b) pre ->
  t = pre \/ (exists b, t = pre ++ [b]) ->
  ruin_last t.
Proof.
  intros Hpos Ht i b Hnth Hb.
  assert (Hpre : forall j, nth_error pre j = Some b -> False).
  { intros j Hj. apply nth_error_In in Hj.
    rewrite Forall_forall in Hpos. specialize (Hpos b Hj). lra. }
  destruct Ht as [-> | [b0 ->]]; [now destruct (Hpre i) |].
  assert (Hi : (i < length (pre ++ [b0]))%nat)
    by (apply nth_error_Some; congruence).
  rewrite length_app in *. simpl in *.
  destruct (Nat.lt_ge_cases i (length pre)) as [Hlt | Hge]; [| lia].
  rewrite nth_error_app1 in Hnth by exact Hlt. now destruct (Hpre i).
Qed.

(** *** One hand *)

Section RunFacts.

Context {G : Type}.
Variable shuffle : G -> list string -> G * list string.
Variable choice : G -> Q * Q * Q -> G * outcome.
Variable cfg : Config.

Lemma reshuffle_check_reset (g : G) (s : RunState) :
  (length (deck s) < 52)%nat ->
  reshuffle_check shuffle cfg g s =
    (fst (shuffle g (cards (num_decks cfg))),
     {| deck := snd (shuffle g (cards (num_decks cfg)));
        running_count := 0;
        bankroll := bankroll s;
        bankrolls := bankrolls s |}).
Proof.
  intro H. unfold reshuffle_check.
  rewrite (proj2 (Nat.ltb_lt _ _) H).
  now destruct (shuffle g (cards (num_decks cfg))).
Qed.

Lemma reshuffle_check_keep (g : G) (s : RunState) :
  (52 <= length (deck s))%nat -> reshuffle_check shuffle cfg g s = (g, s).
Proof.
  intro H. unfold reshuffle_check.
  now rewrite (proj2 (Nat.ltb_ge _ _) H).
Qed.

Lemma reshuffle_check_money (g : G) (s : RunState) :
  bankroll (snd (reshuffle_check shuffle cfg g s)) = bankroll s
  /\ bankrolls (snd (reshuffle_check shuffle cfg g s)) = bankrolls s.
Proof.
  destruct (Nat.lt_ge_cases (length (deck s)) 52) as [H | H].
  - rewrite reshuffle_check_reset by exact H. now split.
  - rewrite reshuffle_check_keep by exact H. now split.
Qed.

(** What a hand that did not raise has done. *)
Lemma play_hand_inv (g : G) (s : RunState) (g' : G) (s' : RunState) :
  play_hand shuffle choice cfg g s = Ok (g', s') ->
  exists card true_count o,
    deck (snd (reshuffle_check shuffle cfg g s)) = deck s' ++ [card]
    /\ bankroll s' = settle o (bankroll s) (bet_size cfg true_count (bankroll s))
    /\ bankrolls s' = bankrolls s ++ [bankroll s'].
Proof.
  unfold play_hand.
  destruct (reshuffle_check_money g s) as [Hb Hbs].
  destruct (reshuffle_check shuffle cfg g s) as [g1 s1]. simpl in Hb, Hbs. simpl snd.
  destruct (pop (deck s1)) as [[card rest] |] eqn:Epop; cbn [bind]; [| discriminate].
  destruct (dict_get card_values card) as [value |]; cbn [bind]; [| discriminate].
  destruct (get_true_count _ _) as [true_count |]; cbn [bind]; [| discriminate].
  destruct (choice g1 (outcome_probs true_count)) as [g2 o].
  intro H. injection H as <- <-. cbn [deck bankroll bankrolls].
  exists card, true_count, o. rewrite Hb, Hbs.
  repeat split. now apply pop_inv.
Qed.

Lemma settle_nonneg (o : outcome) (b bet : Q) :
  0 < b -> 0 < bet -> bet <= b -> 0 <= settle o b bet.
Proof. intros Hb Hbet Hle. destruct o; simpl; lra. Qed.

(** With valid stakes a hand leaves a bankroll that is not negative. *)
Lemma play_hand_bankroll (g : G) (s : RunState) (g' : G) (s' : RunState) :
  (0 < min_bet cfg)%Z -> (1 <= spread cfg)%Z -> 0 < bankroll s ->
  play_hand shuffle choice cfg g s = Ok (g', s') -> 0 <= bankroll s'.
Proof.
  intros Hm Hs Hb H.
  destruct (play_hand_inv g s g' s' H) as (card & tc & o & _ & E & _).
  rewrite E.
  destruct (bet_size_pos cfg tc (bankroll s) Hb Hm Hs) as [H1 H2].
  now apply settle_nonneg.
Qed.

(** *** The loop, whatever the shoe *)

Lemma start_money (g : G) :
  bankroll (snd (start shuffle cfg g)) = inject_Z (initial_bankroll cfg)
  /\ bankrolls (snd (start shuffle cfg g)) = [].
Proof.
  unfold start. now destruct (shuffle g (cards (num_decks cfg))).
Qed.

(** Every value the loop records before it stops is positive, except
    possibly the one it stops on. *)
Lemma play_hands_positive_prefix (n : nat) :
  forall (g : G) (s : RunState) (g' : G) (s' : RunState),
  Forall (fun b => 0 < b) (bankrolls s) ->
  play_hands shuffle choice cfg n g s = Ok (g', s') ->
  exists pre, Forall (fun b => 0 < b) pre
              /\ (bankrolls s' = pre \/ exists b, bankrolls s' = pre ++ [b]).
Proof.
  induction n as [| n IH]; intros g s g' s' Hpos.
  - simpl. intro H. injection H as <- <-. exists (bankrolls s). auto.
  - cbn [play_hands].
    destruct (play_hand shuffle choice cfg g s) as [[g1 s1] |] eqn:E;
      cbn [bind]; [| discriminate].
    destruct (play_hand_inv g s g1 s1 E) as (_ & _ & _ & _ & _ & Ebs).
    destruct (Qle_bool (bankroll s1) 0) eqn:Eruin.
    + intro H. injection H as <- <-. exists (bankrolls s). split; [exact Hpos |].
      right. now exists (bankroll s1).
    + apply IH. rewrite Ebs. apply Forall_app. split; [exact Hpos |].
      constructor; [| constructor].
      apply Qnot_le_lt. intro Hle. apply Qle_bool_iff in Hle. congruence.
Qed.

(** With valid stakes, no value the loop records is negative. *)
Lemma play_hands_nonneg (n : nat) :
  (0 < min_bet cfg)%Z -> (1 <= spread cfg)%Z ->
  forall (g : G) (s : RunState) (g' : G) (s' : RunState),
  0 < bankroll s ->
  Forall (fun b => 0 <= b) (bankrolls s) ->
  play_hands shuffle choice cfg n g s = Ok (g', s') ->
  Forall (fun b => 0 <= b) (bankrolls s').
Proof.
  intros Hm Hs.
  induction n as [| n IH]; intros g s g' s' Hb Hall.
  - simpl. intro H. injection H as <- <-. exact Hall.
  - cbn [play_hands].
    destruct (play_hand shuffle choice cfg g s) as [[g1 s1] |] eqn:E;
      cbn [bind]; [| discriminate].
    destruct (play_hand_inv g s g1 s1 E) as (_ & _ & _ & _ & _ & Ebs).
    pose proof (play_hand_bankroll g s g1 s1 Hm Hs Hb E) as Hb1.
    assert (Hall1 : Forall (fun b => 0 <= b) (bankrolls s1)).
    { rewrite Ebs. apply Forall_app. split; [exact Hall |].
      constructor; [exact Hb1 | constructor]. }
    destruct (Qle_bool (bankroll s1) 0) eqn:Eruin.
    + intro H. injection H as <- <-. exact Hall1.
    + apply IH; [| exact Hall1].
      apply Qnot_le_lt. intro Hle. apply Qle_bool_iff in Hle. congruence.
Qed.

(** The loop only passes through reachable states. *)
Lemma play_hands_reachable (n : nat) :
  forall (g : G) (s : RunState) (g' : G) (s' : RunState),
  reachable shuffle choice cfg (g, s) ->
  play_hands shuffle choice cfg n g s = Ok (g', s') ->
  reachable shuffle choice cfg (g', s').
Proof.
  induction n as [| n IH]; intros g s g' s' Hr.
  - simpl. intro H. injection H as <- <-. exact Hr.
  - cbn [play_hands].
    destruct (play_hand shuffle choice cfg g s) as [[g1 s1] |] eqn:E;
      cbn [bind]; [| discriminate].
    pose proof (reach_hand shuffle choice cfg g s g1 s1 Hr E) as Hr1.
    destruct (Qle_bool (bankroll s1) 0).
    + intro H. injection H as <- <-. exact Hr1.
    + now apply IH.
Qed.

(** *** The shoe invariant *)

Hypothesis shuffle_perm : forall g l, Permutation (snd (shuffle g l)) l.
Hypothesis decks_pos : (1 <= num_decks cfg)%nat.

Lemma shuffled_cards (g : G) :
  length (snd (shuffle g (cards (num_decks cfg)))) = (52 * num_decks cfg)%nat
  /\ Forall is_rank (snd (shuffle g (cards (num_decks cfg)))).
Proof.
  pose proof (shuffle_perm g (cards (num_decks cfg))) as P. split.
  - rewrite (Permutation_length P). apply cards_length.
  - apply (Permutation_Forall (Permutation_sym P)). apply cards_ranks.
Qed.

Lemma start_shoe_ok (g : G) : shoe_ok cfg (snd (start shuffle cfg g)).
Proof.
  unfold start. destruct (shuffled_cards g) as [Hl Hr].
  destruct (shuffle g (cards (num_decks cfg))) as [g0 d].
  unfold shoe_ok. simpl in *. split; [now rewrite Hl | exact Hr].
Qed.

(** After the reshuffle check the shoe holds at least 52 cards. *)
Lemma reshuffle_check_shoe (g : G) (s : RunState) :
  shoe_ok cfg s ->
  (52 <= length (deck (snd (reshuffle_check shuffle cfg g s))))%nat
  /\ shoe_ok cfg (snd (reshuffle_check shuffle cfg g s)).
Proof.
  intros [Hl Hr].
  destruct (Nat.lt_ge_cases (length (deck s)) 52) as [H | H].
  - rewrite reshuffle_check_reset by exact H.
    destruct (shuffled_cards g) as [Hl' Hr']. unfold shoe_ok. simpl.
    rewrite Hl'. repeat split; [lia | lia | exact Hr'].
  - rewrite reshuffle_check_keep by exact H. simpl.
    split; [exact H | split; assumption].
Qed.

(** A hand played on a sound shoe does not raise, draws the last card
    of the checked shoe and leaves a sound shoe. *)
Lemma play_hand_ok (g : G) (s : RunState) :
  shoe_ok cfg s ->
  exists g' s' card,
    play_hand shuffle choice cfg g s = Ok (g', s')
    /\ pop (deck (snd (reshuffle_check shuffle cfg g s))) = Ok (card, deck s')
    /\ shoe_ok cfg s'.
Proof.
  intro Hok. unfold play_hand.
  destruct (reshuffle_check_shoe g s Hok) as [H52 [Hl Hr]].
  destruct (reshuffle_check shuffle cfg g s) as [g1 s1]. simpl in H52, Hl, Hr. simpl snd.
  destruct (pop_nonempty (deck s1)) as (card & rest & Epop & Edeck); [lia |].
  rewrite Epop. cbn [bind].
  rewrite Edeck in Hr, Hl. apply Forall_app in Hr. destruct Hr as [Hrest Hcard].
  inversion Hcard as [| ? ? Hrank _]; subst.
  destruct (dict_get_key card_values card Hrank) as [value ->]. cbn [bind].
  destruct (get_true_count_ok (inject_Z (running_count s1 + value))
              (decks_remaining (length rest))) as [tc ->]. cbn [bind].
  destruct (choice g1 (outcome_probs tc)) as [g2 o].
  eexists _, _, card. split; [reflexivity |]. cbn [deck].
  split; [reflexivity |]. split; cbn [deck]; [| exact Hrest].
  rewrite length_app in Hl. simpl in Hl. lia.
Qed.

Lemma reachable_shoe_ok (gs : G * RunState) :
  reachable shuffle choice cfg gs -> shoe_ok cfg (snd gs).
Proof.
  induction 1 as [g | g s g' s' _ IH Hhand].
  - apply start_shoe_ok.
  - destruct (play_hand_ok g s IH) as (g2 & s2 & card & E & _ & Hok).
    rewrite E in Hhand. injection Hhand as <- <-. exact Hok.
Qed.

(** The loop does not raise, records at most one value per hand, and at
    least one when there is a hand to play. *)
Lemma play_hands_ok (n : nat) : forall (g : G) (s : RunState),
  shoe_ok cfg s ->
  exists g' s',
    play_hands shuffle choice cfg n g s = Ok (g', s')
    /\ (length (bankrolls s) + Nat.min 1 n <= length (bankrolls s'))%nat
    /\ (length (bankrolls s') <= length (bankrolls s) + n)%nat.
Proof.
  induction n as [| n IH]; intros g s Hok.
  - exists g, s. simpl. repeat split; lia.
  - destruct (play_hand_ok g s Hok) as (g1 & s1 & card & E & _ & Hok1).
    destruct (play_hand_inv g s g1 s1 E) as (_ & _ & _ & _ & _ & Ebs).
    assert (Hlen : length (bankrolls s1) = S (length (bankrolls s))).
    { rewrite Ebs, length_app. simpl. lia. }
    cbn [play_hands]. rewrite E. cbn [bind].
    destruct (Qle_bool (bankroll s1) 0).
    + exists g1, s1. repeat split; lia.
    + destruct (IH g1 s1 Hok1) as (g2 & s2 & E2 & Hge & Hle).
      exists g2, s2. repeat split; [exact E2 | lia | lia].
Qed.

End RunFacts.

(** *** One simulated run *)

Lemma play_hands_from_start {G : Type}
    (shuffle : G -> list string -> G * list string)
    (choice : G -> Q * Q * Q -> G * outcome) (cfg : Config) (g : G) :
  (forall g l, Permutation (snd (shuffle g l)) l) ->
  (1 <= num_decks cfg)%nat ->
  exists g' s',
    play_hands shuffle choice cfg (num_hands cfg)
      (fst (start shuffle cfg g)) (snd (start shuffle cfg g)) = Ok (g', s')
    /\ (Nat.min 1 (num_hands cfg) <= length (bankrolls s') <= num_hands cfg)%nat.
Proof.
  intros Hperm Hdecks.
  pose proof (start_shoe_ok shuffle cfg Hperm g) as Hok.
  destruct (start_money shuffle cfg g) as [_ Hbs].
  destruct (play_hands_ok shuffle choice cfg Hperm Hdecks (num_hands cfg)
              (fst (start shuffle cfg g)) (snd (start shuffle cfg g)) Hok)
    as (g' & s' & E & Hge & Hle).
  exists g', s'. rewrite Hbs in Hge, Hle. cbn [length] in Hge, Hle.
  split; [exact E | lia].
Qed.

(** C2: with at least one deck and at least one hand, a run does not
    raise and its trajectory is non-empty and no longer than the hand
    limit. *)
Theorem C2_trajectory_nonempty_bounded {G : Type}
    (shuffle : G -> list string -> G * list string)
    (choice : G -> Q * Q * Q -> G * outcome) (cfg : Config) (g : G) :
  (forall g l, Permutation (snd (shuffle g l)) l) ->
  (1 <= num_decks cfg)%nat ->
  (1 <= num_hands cfg)%nat ->
  exists g' t,
    simulate_single_run shuffle choice cfg g = Ok (g', t)
    /\ t <> []
    /\ (length t <= num_hands cfg)%nat.
Proof.
  intros Hperm Hdecks Hhands. unfold simulate_single_run.
  destruct (play_hands_from_start shuffle choice cfg g Hperm Hdecks)
    as (g' & s' & E & Hge & Hle).
  destruct (start shuffle cfg g) as [g0 s0]. simpl in E.
  rewrite E. cbn [bind]. exists g', (bankrolls s').
  split; [reflexivity | split; [| exact Hle]].
  intro Hnil. rewrite Hnil in Hge. cbn [length] in Hge. lia.
Qed.

Lemma scripted_shuffle_perm :
  forall (g : list outcome) (l : list string),
    Permutation (snd (Scripted.shuffle g l)) l.
Proof. intros g l. simpl. apply Permutation_sym, Permutation_rev. Qed.

Lemma C2_witness :
  exists g' t,
    simulate_single_run Scripted.shuffle Scripted.choice Scripted.cfg0 [win; lose; push]
      = Ok (g', t)
    /\ t <> []
    /\ (length t <= 5)%nat.
Proof.
  apply (C2_trajectory_nonempty_bounded Scripted.shuffle Scripted.choice
           Scripted.cfg0 [win; lose; push]).
  - exact scripted_shuffle_perm.
  - simpl. lia.
  - simpl. lia.
Defined.

(** C3: in the trajectory of a run, a recorded bankroll at or below zero
    is the last element: no hand is played after ruin. *)
Theorem C3_ruin_is_terminal {G : Type}
    (shuffle : G -> list string -> G * list string)
    (choice : G -> Q * Q * Q -> G * outcome) (cfg : Config) (g g' : G)
    (t : list Q) :
  simulate_single_run shuffle choice cfg g = Ok (g', t) ->
  forall (i : nat) (b : Q), nth_error t i = Some b -> b <= 0 -> S i = length t.
Proof.
  unfold simulate_single_run.
  destruct (start_money shuffle cfg g) as [_ Hbs].
  destruct (start shuffle cfg g) as [g0 s0]. simpl in Hbs.
  destruct (play_hands shuffle choice cfg (num_hands cfg) g0 s0) as [[g1 s1] |] eqn:E;
    cbn [bind]; [| discriminate].
  intro H. injection H as <- <-.
  destruct (play_hands_positive_prefix shuffle choice cfg (num_hands cfg) g0 s0 g1 s1)
    as (pre & Hpos & Ht); [rewrite Hbs; constructor | exact E |].
  exact (positive_prefix_ruin_last (bankrolls s1) pre Hpos Ht).
Qed.

Lemma C3_witness :
  simulate_single_run Scripted.shuffle Scripted.choice Scripted.cfg0 [lose; lose; win]
    = Ok ([win], [500; 0])
  /\ 2%nat = length [500; 0].
Proof.
  assert (H : simulate_single_run Scripted.shuffle Scripted.choice Scripted.cfg0
                [lose; lose; win] = Ok ([win], [500; 0]))
    by (vm_compute; reflexivity).
  split; [exact H |].
  apply (C3_ruin_is_terminal Scripted.shuffle Scripted.choice Scripted.cfg0
           [lose; lose; win] [win] [500; 0] H 1%nat 0).
  - reflexivity.
  - apply Qle_refl.
Defined.

(** C10: with a positive initial bankroll, a positive minimum bet and a
    spread of at least 1, no recorded bankroll is negative, so a recorded
    bankroll at or below zero is exactly zero. *)
Theorem C10_bankroll_never_negative {G : Type}
    (shuffle : G -> list string -> G * list string)
    (choice : G -> Q * Q * Q -> G * outcome) (cfg : Config) (g g' : G)
    (t : list Q) :
  (0 < initial_bankroll cfg)%Z -> (0 < min_bet cfg)%Z -> (1 <= spread cfg)%Z ->
  simulate_single_run shuffle choice cfg g = Ok (g', t) ->
  Forall (fun b => 0 <= b) t /\ (forall b, In b t -> b <= 0 -> b == 0).
Proof.
  intros Hi Hm Hs. unfold simulate_single_run.
  destruct (start_money shuffle cfg g) as [Hb Hbs].
  destruct (start shuffle cfg g) as [g0 s0]. simpl in Hb, Hbs.
  destruct (play_hands shuffle choice cfg (num_hands cfg) g0 s0) as [[g1 s1] |] eqn:E;
    cbn [bind]; [| discriminate].
  intro H. injection H as <- <-.
  assert (Hall : Forall (fun b => 0 <= b) (bankrolls s1)).
  { apply (play_hands_nonneg shuffle choice cfg (num_hands cfg) Hm Hs g0 s0 g1 s1).
    - rewrite Hb. now apply inject_Z_pos.
    - rewrite Hbs. constructor.
    - exact E. }
  split; [exact Hall |].
  intros b Hin Hle. rewrite Forall_forall in Hall. specialize (Hall b Hin). lra.
Qed.

Lemma C10_witness :
  Forall (fun b => 0 <= b) [500; 0] /\ (forall b, In b [500; 0] -> b <= 0 -> b == 0).
Proof.
  apply (C10_bankroll_never_negative Scripted.shuffle Scripted.choice Scripted.cfg0
           [lose; lose; win] [win] [500; 0]).
  - simpl. lia.
  - simpl. lia.
  - simpl. lia.
  - vm_compute. reflexivity.
Defined.

(** Two scripted runs on one deck: ruin after two lost hands, and a
    bankroll below the minimum bet with spread 1 (the fourth wager is
    100, not 300). *)
Example run_to_ruin :
  Scripted.run Scripted.cfg0 [lose; lose; win] = Ok [500; 0].
Proof. vm_compute. reflexivity. Qed.

Example run_short_of_min_bet :
  Scripted.run (Build_Config 1000 300 1 1 5 1) [lose; lose; lose; lose; win]
    = Ok [700; 400; 100; 0].
Proof. vm_compute. reflexivity. Qed.

(** C4: at the top of the loop body of any run, the shoe holds at most
    [52 * num_decks] cards; if it holds fewer than 52, the check replaces
    it by a permutation of the full shoe and zeroes the running count;
    the shoe the draw is taken from holds at least 52 cards, and the
    draw succeeds. *)
Theorem C4_shoe_reset_and_bounds {G : Type}
    (shuffle : G -> list string -> G * list string)
    (choice : G -> Q * Q * Q -> G * outcome) (cfg : Config) :
  (forall g l, Permutation (snd (shuffle g l)) l) ->
  (1 <= num_decks cfg)%nat ->
  forall (g : G) (s : RunState),
    reachable shuffle choice cfg (g, s) ->
    let checked := snd (reshuffle_check shuffle cfg g s) in
    ((length (deck s) < 52)%nat ->
       Permutation (deck checked) (cards (num_decks cfg))
       /\ length (deck checked) = (52 * num_decks cfg)%nat
       /\ running_count checked = 0%Z)
    /\ (length (deck s) <= 52 * num_decks cfg)%nat
    /\ (52 <= length (deck checked) <= 52 * num_decks cfg)%nat
    /\ exists g' s' card,
         play_hand shuffle choice cfg g s = Ok (g', s')
         /\ pop (deck checked) = Ok (card, deck s').
Proof.
  intros Hperm Hdecks g s Hreach checked.
  pose proof (reachable_shoe_ok shuffle choice cfg Hperm Hdecks (g, s) Hreach) as Hok.
  simpl in Hok.
  destruct (reshuffle_check_shoe shuffle cfg Hperm Hdecks g s Hok) as [H52 [Hl _]].
  fold checked in H52, Hl.
  split; [| split; [exact (proj1 Hok) | split; [split; assumption |]]].
  - intro Hlt. subst checked.
    rewrite (reshuffle_check_reset shuffle cfg g s Hlt). simpl.
    split; [apply Hperm | split; [| reflexivity]].
    rewrite (Permutation_length (Hperm g (cards (num_decks cfg)))).
    apply cards_length.
  - destruct (play_hand_ok shuffle choice cfg Hperm Hdecks g s Hok)
      as (g' & s' & card & E & Epop & _).
    now exists g', s', card.
Qed.

Lemma C4_witness :
  length (deck Scripted.s1) = 51%nat
  /\ ((length (deck Scripted.s1) < 52)%nat ->
        Permutation (deck Scripted.checked1) (cards 1)
        /\ length (deck Scripted.checked1) = 52%nat
        /\ running_count Scripted.checked1 = 0%Z)
  /\ (length (deck Scripted.s1) <= 52)%nat
  /\ (52 <= length (deck Scripted.checked1) <= 52)%nat
  /\ exists g' s' card,
       play_hand Scripted.shuffle Scripted.choice Scripted.cfg0
         Scripted.g1 Scripted.s1 = Ok (g', s')
       /\ pop (deck Scripted.checked1) = Ok (card, deck s').
Proof.
  split; [reflexivity |].
  apply (C4_shoe_reset_and_bounds Scripted.shuffle Scripted.choice Scripted.cfg0
           scripted_shuffle_perm).
  - simpl. lia.
  - apply (reach_hand Scripted.shuffle Scripted.choice Scripted.cfg0
             (fst (start Scripted.shuffle Scripted.cfg0 [win; lose]))
             (snd (start Scripted.shuffle Scripted.cfg0 [win; lose]))).
    + exact (reach_start Scripted.shuffle Scripted.choice Scripted.cfg0 [win; lose]).
    + vm_compute. reflexivity.
Defined.

(** *** Aggregator *)

Lemma max_len_fold {A : Type} (rs : list (list A)) : forall m0 : nat,
  let m := fold_left (fun m r' => if (m <? length r')%nat then length r' else m) rs m0 in
  (m0 <= m)%nat
  /\ (forall r, In r rs -> (length r <= m)%nat)
  /\ (m = m0 \/ exists r, In r rs /\ length r = m).
Proof.
  induction rs as [| r rs IH]; intros m0; simpl.
  - repeat split; [lia | contradiction | now left].
  - destruct (IH (if (m0 <? length r)%nat then length r else m0)) as (H1 & H2 & H3).
    destruct (Nat.ltb_spec m0 (length r)) as [Hlt | Hge].
    + repeat split; [lia | |].
      * intros r' [<- | Hin]; [exact H1 | now apply H2].
      * right. destruct H3 as [-> | (r' & Hin & E)]; [now exists r; auto |].
        exists r'. auto.
    + repeat split; [lia | |].
      * intros r' [<- | Hin]; [lia | now apply H2].
      * destruct H3 as [-> | (r' & Hin & E)]; [now left |].
        right. exists r'. auto.
Qed.

(** [max_length] is the length of a longest trajectory. *)
Lemma max_len_spec {A : Type} (rs : list (list A)) :
  rs <> [] ->
  exists m, max_len rs = Ok m
            /\ (forall r, In r rs -> (length r <= m)%nat)
            /\ (exists r, In r rs /\ length r = m).
Proof.
  destruct rs as [| r rs]; [congruence | intros _].
  eexists. split; [reflexivity |].
  destruct (max_len_fold rs (length r)) as (H1 & H2 & H3). split.
  - intros r' [<- | Hin]; [exact H1 | now apply H2].
  - destruct H3 as [-> | (r' & Hin & E)].
    + exists r. split; [now left | reflexivity].
    + exists r'. split; [now right | exact E].
Qed.

Lemma pad_to_ok {A : Type} (m : nat) (r : list A) :
  r <> [] ->
  exists pre final,
    r = pre ++ [final] /\ pad_to m r = Ok (r ++ repeat final (m - length r)).
Proof.
  intro Hne. destruct (exists_last Hne) as [pre [final E]].
  exists pre, final. split; [exact E |].
  unfold pad_to, last_item. rewrite E at 1.
  rewrite rev_app_distr. cbn [rev app bind].
  now rewrite list_mul_singleton.
Qed.

Lemma map_pad_to_ok {A : Type} (m : nat) (rs : list (list A)) :
  Forall (fun r => r <> []) rs ->
  exists rows,
    map_result (pad_to m) rs = Ok rows
    /\ length rows = length rs
    /\ ((forall r, In r rs -> (length r <= m)%nat) ->
        Forall (fun row => length row = m) rows)
    /\ forall i r, nth_error rs i = Some r ->
         exists pre final,
           r = pre ++ [final]
           /\ nth_error rows i = Some (r ++ repeat final (m - length r)).
Proof.
  induction 1 as [| r rs Hne _ IH].
  - exists []. repeat split; [constructor |].
    intros [| i] r H; discriminate H.
  - destruct IH as (rows & E & Hlen & Hrect & Hnth).
    destruct (pad_to_ok m r Hne) as (pre & final & Er & Epad).
    exists ((r ++ repeat final (m - length r)) :: rows).
    cbn [map_result]. rewrite Epad, E. cbn [bind].
    repeat split.
    + simpl. now rewrite Hlen.
    + intro Hle. constructor.
      * rewrite length_app, repeat_length. specialize (Hle r (or_introl eq_refl)). lia.
      * apply Hrect. intros r' Hin. apply Hle. now right.
    + intros [| i] r' Hi; simpl in Hi.
      * injection Hi as <-. now exists pre, final.
      * now apply Hnth.
Qed.

(** C9: for a batch of at least one trajectory, each with at least one
    value, the padding does not raise; [max_length] is the length of a
    longest trajectory; there is one row per trajectory, every row has
    length [max_length], and row [i] is trajectory [i] followed by copies
    of that trajectory's own last value. *)
Theorem C9_padding_rectangular {A : Type} (all_results : list (list A)) :
  all_results <> [] ->
  Forall (fun r => r <> []) all_results ->
  exists max_length rows,
    max_len all_results = Ok max_length
    /\ (forall r, In r all_results -> (length r <= max_length)%nat)
    /\ (exists r, In r all_results /\ length r = max_length)
    /\ padded_results all_results = Ok rows
    /\ length rows = length all_results
    /\ Forall (fun row => length row = max_length) rows
    /\ forall i r, nth_error all_results i = Some r ->
         exists pre final,
           r = pre ++ [final]
           /\ nth_error rows i = Some (r ++ repeat final (max_length - length r)).
Proof.
  intros Hne Hall.
  destruct (max_len_spec all_results Hne) as (m & Em & Hle & Hmax).
  destruct (map_pad_to_ok m all_results Hall) as (rows & E & Hlen & Hrect & Hnth).
  exists m, rows. unfold padded_results. rewrite Em. cbn [bind].
  repeat split; auto.
Qed.

Lemma C9_witness :
  exists max_length rows,
    max_len [[1000; 0]; [1750; 1250; 2000]; [500]] = Ok max_length
    /\ (forall r, In r [[1000; 0]; [1750; 1250; 2000]; [500]] ->
          (length r <= max_length)%nat)
    /\ (exists r, In r [[1000; 0]; [1750; 1250; 2000]; [500]]
                  /\ length r = max_length)
    /\ padded_results [[1000; 0]; [1750; 1250; 2000]; [500]] = Ok rows
    /\ length rows = 3%nat
    /\ Forall (fun row => length row = max_length) rows
    /\ forall i r,
         nth_error [[1000; 0]; [1750; 1250; 2000]; [500]] i = Some r ->
         exists pre final,
           r = pre ++ [final]
           /\ nth_error rows i = Some (r ++ repeat final (max_length - length r)).
Proof.
  apply (C9_padding_rectangular [[1000; 0]; [1750; 1250; 2000]; [500]]).
  - discriminate.
  - repeat constructor; discriminate.
Defined.

(** The batch the engine hands to the padding meets its precondition:
    one non-empty trajectory per simulation, so padding does not raise. *)
Lemma simulate_runs_ok {G : Type}
    (shuffle : G -> list string -> G * list string)
    (choice : G -> Q * Q * Q -> G * outcome) (cfg : Config) :
  (forall g l, Permutation (snd (shuffle g l)) l) ->
  (1 <= num_decks cfg)%nat ->
  (1 <= num_hands cfg)%nat ->
  forall (n : nat) (g : G),
  exists g' rs,
    simulate_runs shuffle choice cfg n g = Ok (g', rs)
    /\ length rs = n
    /\ Forall (fun r => r <> []) rs.
Proof.
  intros Hperm Hdecks Hhands.
  induction n as [| n IH]; intro g.
  - exists g, []. repeat split. constructor.
  - cbn [simulate_runs]. unfold simulate_single_run.
    destruct (play_hands_from_start shuffle choice cfg g Hperm Hdecks)
      as (g1 & s1 & E & Hge & _).
    destruct (start shuffle cfg g) as [g0 s0]. simpl in E.
    rewrite E. cbn [bind].
    destruct (IH g1) as (g2 & rs & E2 & Hlen & Hall).
    rewrite E2. cbn [bind].
    exists g2, (bankrolls s1 :: rs).
    split; [reflexivity | split; [simpl; now rewrite Hlen |]].
    constructor; [| exact Hall].
    intro Hnil. rewrite Hnil in Hge. cbn [length] in Hge. lia.
Qed.

Lemma batch_padding_ok {G : Type}
    (shuffle : G -> list string -> G * list string)
    (choice : G -> Q * Q * Q -> G * outcome) (cfg : Config) (g : G) :
  (forall g l, Permutation (snd (shuffle g l)) l) ->
  (1 <= num_decks cfg)%nat ->
  (1 <= num_hands cfg)%nat ->
  (1 <= num_simulations cfg)%nat ->
  exists g' rs rows,
    all_results shuffle choice cfg g = Ok (g', rs)
    /\ padded_results rs = Ok rows
    /\ length rows = num_simulations cfg.
Proof.
  intros Hperm Hdecks Hhands Hsims. unfold all_results.
  destruct (simulate_runs_ok shuffle choice cfg Hperm Hdecks Hhands
              (num_simulations cfg) g) as (g' & rs & E & Hlen & Hall).
  assert (Hne : rs <> []) by (intro Hnil; rewrite Hnil in Hlen; simpl in Hlen; lia).
  destruct (max_len_spec rs Hne) as (m & Em & _).
  destruct (map_pad_to_ok m rs Hall) as (rows & Erows & Hrows & _).
  exists g', rs, rows. unfold padded_results. rewrite Em. cbn [bind].
  repeat split; [exact E | exact Erows | congruence].
Qed.

(** *** The probability normalisation *)


(** On binary64 every true count that does not exceed 1 by the float
    comparison gets the same three probabilities. *)
Lemma binary64_low_count (true_count : float) :
  PrimFloat.ltb 0 (true_count - 1) = false ->
  Binary64.outcome_probs true_count = (0.48, 0.4400000000000001, 0.08)%float.
Proof.
  intro H. unfold Binary64.outcome_probs, Binary64.win_prob, Binary64.py_max.
  rewrite H. vm_compute. reflexivity.
Qed.

(** On binary64 the win probability is 0.48 at and below a true count
    of 1 and 0.53 once the bonus reaches the cap. *)
Lemma binary64_win_prob_ends (true_count : float) :
  (PrimFloat.ltb 0 (true_count - 1) = false ->
     Binary64.win_prob true_count = 0.48%float)
  /\ (PrimFloat.ltb 0 (true_count - 1) = true ->
      PrimFloat.ltb 0.05 (0.01 * (true_count - 1)) = true ->
      Binary64.win_prob true_count = 0.53%float).
Proof.
  unfold Binary64.win_prob, Binary64.py_max, Binary64.py_min. split.
  - intros ->. vm_compute. reflexivity.
  - intros -> ->. vm_compute. reflexivity.
Qed.

(** C5, evaluated on binary64.  With eight decks and a first card of
    count value 0 (a '7', '8' or '9'), 415 cards are left and the true
    count is 0.0.  There win is 0.48 and lose is 0.44, their sum with
    push 0.08 is 0.9999999999999999, the corrective adjustment adds the
    residual 2^-53 to the lose probability, and the corrected
    probabilities sum to 1.0000000000000002, not to 1.0. *)
Theorem C5_normalised_sum_at_zero :
  Binary64.get_true_count 0 (Binary64.decks_remaining 415) = 0%float
  /\ (0.48 + (1 - 0.48 - 0.08) + 0.08 = 0.9999999999999999)%float
  /\ Binary64.outcome_probs 0%float
       = (0.48, 0.4400000000000001, 0.08)%float
  /\ Binary64.prob_sum (Binary64.outcome_probs 0%float) = 1.0000000000000002%float
  /\ PrimFloat.eqb (Binary64.prob_sum (Binary64.outcome_probs 0%float)) 1%float = false.
Proof. vm_compute. repeat split. Qed.

(** ** Further properties of the code *)

(** *** The shoe and the Hi-Lo count (lines 39-44) *)

Lemma occurrences_app (c : string) (l1 l2 : list string) :
  occurrences c (l1 ++ l2) = (occurrences c l1 + occurrences c l2)%nat.
Proof. unfold occurrences. now rewrite filter_app, length_app. Qed.

Lemma occurrences_list_mul (c : string) (l : list string) (n : nat) :
  occurrences c (list_mul l n) = (n * occurrences c l)%nat.
Proof.
  induction n as [| n IH]; simpl; [reflexivity |].
  rewrite occurrences_app, IH. lia.
Qed.

Lemma occurrences_absent (c : string) (l : list string) :
  ~ In c l -> occurrences c l = 0%nat.
Proof.
  unfold occurrences. induction l as [| x l IH]; simpl; [reflexivity |].
  intro H. destruct (String.eqb_spec c x) as [-> | _].
  - exfalso. apply H. now left.
  - apply IH. intro Hin. apply H. now right.
Qed.

(** X1: a shoe of [n] decks holds [52 * n] cards: each of the thirteen
    ranks [4 * n] times, and nothing else. *)
Theorem X1_shoe_composition (n : nat) :
  length (cards n) = (52 * n)%nat
  /\ (forall c, is_rank c -> occurrences c (cards n) = (4 * n)%nat)
  /\ (forall c, ~ is_rank c -> occurrences c (cards n) = 0%nat).
Proof.
  split; [apply cards_length | split].
  - intros c Hc. unfold cards. rewrite !occurrences_list_mul.
    assert (E : occurrences c (keys card_values) = 1%nat).
    { unfold is_rank in Hc. simpl in Hc.
      repeat (destruct Hc as [<- | Hc]; [reflexivity |]). contradiction. }
    rewrite E. lia.
  - intros c Hc. unfold cards. rewrite !occurrences_list_mul.
    rewrite (occurrences_absent c (keys card_values) Hc). lia.
Qed.

Lemma X1_witness : occurrences "K" (cards 8) = 32%nat.
Proof.
  apply (proj1 (proj2 (X1_shoe_composition 8)) "K"%string).
  unfold is_rank. simpl. tauto.
Defined.

Lemma sum_by_app (f : string -> Z) (l1 l2 : list string) :
  sum_by f (l1 ++ l2) = (sum_by f l1 + sum_by f l2)%Z.
Proof. induction l1 as [| c l1 IH]; simpl; [reflexivity | rewrite IH; lia]. Qed.

Lemma sum_by_list_mul (f : string -> Z) (l : list string) (n : nat) :
  sum_by f (list_mul l n) = (Z.of_nat n * sum_by f l)%Z.
Proof.
  induction n as [| n IH]; [reflexivity |].
  cbn [list_mul]. rewrite sum_by_app, IH. lia.
Qed.

Lemma sum_by_perm (f : string -> Z) (l1 l2 : list string) :
  Permutation l1 l2 -> sum_by f l1 = sum_by f l2.
Proof. induction 1; simpl; lia. Qed.

Lemma sum_by_le (f h : string -> Z) (l : list string) :
  (forall c, (f c <= h c)%Z) -> (sum_by f l <= sum_by h l)%Z.
Proof.
  intro H. induction l as [| c l IH]; simpl; [lia |].
  specialize (H c). lia.
Qed.

Lemma sum_by_nonneg (f : string -> Z) (l : list string) :
  (forall c, (0 <= f c)%Z) -> (0 <= sum_by f l)%Z.
Proof.
  intro H. induction l as [| c l IH]; simpl; [lia |].
  specialize (H c). lia.
Qed.

Lemma full_shoe_sum_zero (n : nat) (shoe : list string) :
  Permutation shoe (cards n) -> sum_by card_value shoe = 0%Z.
Proof.
  intro P. rewrite (sum_by_perm card_value shoe (cards n) P).
  unfold cards. rewrite !sum_by_list_mul.
  replace (sum_by card_value (keys card_values)) with 0%Z by reflexivity. lia.
Qed.

(** X2: Hi-Lo is balanced: the count of a full shoe is 0, whatever the
    number of decks and however the shoe is ordered. *)
Theorem X2_full_shoe_count_zero (n : nat) (shoe : list string) :
  Permutation shoe (cards n) -> shoe_count shoe = 0%Z.
Proof.
  intro P. unfold shoe_count.
  rewrite (sum_by_perm card_value shoe (cards n) P).
  unfold cards. rewrite !sum_by_list_mul.
  assert (E : sum_by card_value (keys card_values) = 0%Z) by reflexivity.
  rewrite E. lia.
Qed.

Lemma X2_witness : shoe_count (rev (cards 2)) = 0%Z.
Proof.
  apply (X2_full_shoe_count_zero 2 (rev (cards 2))).
  apply Permutation_sym, Permutation_rev.
Defined.

(** *** The running count along a run (lines 50-64) *)

(** What the draw of a hand that did not raise has done. *)
Lemma play_hand_draw {G : Type}
    (shuffle : G -> list string -> G * list string)
    (choice : G -> Q * Q * Q -> G * outcome) (cfg : Config)
    (g : G) (s : RunState) (g' : G) (s' : RunState) :
  play_hand shuffle choice cfg g s = Ok (g', s') ->
  exists card value true_count o,
    deck (snd (reshuffle_check shuffle cfg g s)) = deck s' ++ [card]
    /\ dict_get card_values card = Ok value
    /\ running_count s'
       = (running_count (snd (reshuffle_check shuffle cfg g s)) + value)%Z
    /\ get_true_count (inject_Z (running_count s'))
         (decks_remaining (length (deck s'))) = Ok true_count
    /\ bankroll s' = settle o (bankroll s) (bet_size cfg true_count (bankroll s)).
Proof.
  unfold play_hand.
  destruct (reshuffle_check_money shuffle cfg g s) as [Hb _].
  destruct (reshuffle_check shuffle cfg g s) as [g1 s1]. simpl in Hb. simpl snd.
  destruct (pop (deck s1)) as [[card rest] |] eqn:Epop; cbn [bind]; [| discriminate].
  destruct (dict_get card_values card) as [value |] eqn:Eval; cbn [bind]; [| discriminate].
  destruct (get_true_count _ _) as [true_count |] eqn:Etc; cbn [bind]; [| discriminate].
  destruct (choice g1 (outcome_probs true_count)) as [g2 o].
  intro H. injection H as <- <-. cbn [deck running_count bankroll].
  exists card, value, true_count, o. rewrite Hb.
  split; [now apply pop_inv |].
  split; [exact Eval |]. split; [reflexivity |]. split; [exact Etc | reflexivity].
Qed.

Lemma reachable_drawn_ok {G : Type}
    (shuffle : G -> list string -> G * list string)
    (choice : G -> Q * Q * Q -> G * outcome) (cfg : Config) :
  (forall g l, Permutation (snd (shuffle g l)) l) ->
  forall gs, reachable shuffle choice cfg gs -> drawn_ok cfg (snd gs).
Proof.
  intros Hperm gs Hreach.
  assert (Hfresh : forall g b bs,
            drawn_ok cfg {| deck := snd (shuffle g (cards (num_decks cfg)));
                            running_count := 0; bankroll := b; bankrolls := bs |}).
  { intros g b bs. exists []. simpl. rewrite app_nil_r. split; [apply Hperm | reflexivity]. }
  induction Hreach as [g | g s g' s' _ IH Hhand].
  - unfold start. specialize (Hfresh g (inject_Z (initial_bankroll cfg)) []).
    now destruct (shuffle g (cards (num_decks cfg))).
  - simpl in IH |- *.
    destruct (play_hand_draw shuffle choice cfg g s g' s' Hhand)
      as (card & value & _ & _ & Edeck & Eval & Erc & _).
    assert (H1 : drawn_ok cfg (snd (reshuffle_check shuffle cfg g s))).
    { destruct (Nat.lt_ge_cases (length (deck s)) 52) as [H | H].
      - rewrite (reshuffle_check_reset shuffle cfg g s H). apply Hfresh.
      - rewrite (reshuffle_check_keep shuffle cfg g s H). exact IH. }
    destruct H1 as (drawn & P & E).
    exists (card :: drawn). split.
    + rewrite Edeck, <- app_assoc in P. exact P.
    + rewrite Erc, E.
      change (shoe_count (card :: drawn)) with (card_value card + shoe_count drawn)%Z.
      unfold card_value. rewrite Eval. lia.
Qed.

(** X3: at the top of the loop body of any run, the shoe together with
    the cards drawn since the last shuffle is a full shoe, the running
    count is the Hi-Lo count of the drawn cards, and it is the opposite
    of the Hi-Lo count of the cards still in the shoe. *)
Theorem X3_running_count_mirrors_shoe {G : Type}
    (shuffle : G -> list string -> G * list string)
    (choice : G -> Q * Q * Q -> G * outcome) (cfg : Config)
    (g : G) (s : RunState) :
  (forall g l, Permutation (snd (shuffle g l)) l) ->
  reachable shuffle choice cfg (g, s) ->
  (exists drawn,
     Permutation (deck s ++ drawn) (cards (num_decks cfg))
     /\ running_count s = shoe_count drawn)
  /\ (running_count s + shoe_count (deck s) = 0)%Z.
Proof.
  intros Hperm Hreach.
  pose proof (reachable_drawn_ok shuffle choice cfg Hperm (g, s) Hreach) as Hd.
  split; [exact Hd |].
  destruct Hd as (drawn & P & E). simpl in P, E.
  pose proof (full_shoe_sum_zero (num_decks cfg) (deck s ++ drawn) P) as H0.
  unfold shoe_count in *. rewrite sum_by_app in H0. lia.
Qed.

Lemma scripted_s1_reachable :
  reachable Scripted.shuffle Scripted.choice Scripted.cfg0 (Scripted.g1, Scripted.s1).
Proof.
  apply (reach_hand Scripted.shuffle Scripted.choice Scripted.cfg0
           (fst (start Scripted.shuffle Scripted.cfg0 [win; lose]))
           (snd (start Scripted.shuffle Scripted.cfg0 [win; lose]))).
  - exact (reach_start Scripted.shuffle Scripted.choice Scripted.cfg0 [win; lose]).
  - vm_compute. reflexivity.
Qed.

Lemma X3_witness :
  (exists drawn,
     Permutation (deck Scripted.s1 ++ drawn) (cards 1)
     /\ running_count Scripted.s1 = shoe_count drawn)
  /\ (running_count Scripted.s1 + shoe_count (deck Scripted.s1) = 0)%Z.
Proof.
  apply (X3_running_count_mirrors_shoe Scripted.shuffle Scripted.choice Scripted.cfg0
           Scripted.g1 Scripted.s1 scripted_shuffle_perm scripted_s1_reachable).
Defined.

Lemma sum_by_opp (f : string -> Z) (l : list string) :
  sum_by (fun c => (- f c)%Z) l = (- sum_by f l)%Z.
Proof. induction l as [| c l IH]; simpl; [reflexivity | rewrite IH; lia]. Qed.

(** The low cards (value +1) and the high cards (value -1) of a list. *)
Lemma count_between_lows_and_highs (l : list string) :
  (- sum_by (fun c => Z.max 0 (- card_value c)) l <= sum_by card_value l
   <= sum_by (fun c => Z.max 0 (card_value c)) l)%Z.
Proof.
  split.
  - rewrite <- sum_by_opp. apply sum_by_le. intro c. lia.
  - apply sum_by_le. intro c. lia.
Qed.

Lemma part_of_shoe_le (f : string -> Z) (n : nat) (l rest : list string) :
  (forall c, (0 <= f c)%Z) ->
  Permutation (rest ++ l) (cards n) ->
  (sum_by f l <= Z.of_nat (4 * n) * sum_by f (keys card_values))%Z.
Proof.
  intros Hf P.
  pose proof (sum_by_perm f _ _ P) as E. rewrite sum_by_app in E.
  unfold cards in E. rewrite !sum_by_list_mul in E.
  pose proof (sum_by_nonneg f rest Hf). lia.
Qed.

(** X4: at the top of the loop body of any run, the running count lies
    between [-20 * num_decks] and [20 * num_decks]: a shoe holds that
    many high and that many low cards. *)
Theorem X4_running_count_bounded {G : Type}
    (shuffle : G -> list string -> G * list string)
    (choice : G -> Q * Q * Q -> G * outcome) (cfg : Config)
    (g : G) (s : RunState) :
  (forall g l, Permutation (snd (shuffle g l)) l) ->
  reachable shuffle choice cfg (g, s) ->
  (- (20 * Z.of_nat (num_decks cfg)) <= running_count s
   <= 20 * Z.of_nat (num_decks cfg))%Z.
Proof.
  intros Hperm Hreach.
  destruct (reachable_drawn_ok shuffle choice cfg Hperm (g, s) Hreach)
    as (drawn & P & E).
  simpl in P, E. rewrite E. unfold shoe_count.
  pose proof (count_between_lows_and_highs drawn) as [Hlo Hhi].
  pose proof (part_of_shoe_le (fun c => Z.max 0 (card_value c))
                (num_decks cfg) drawn (deck s) ltac:(intro; lia) P) as Hl.
  pose proof (part_of_shoe_le (fun c => Z.max 0 (- card_value c))
                (num_decks cfg) drawn (deck s) ltac:(intro; lia) P) as Hh.
  assert (El : sum_by (fun c => Z.max 0 (card_value c)) (keys card_values) = 5%Z)
    by reflexivity.
  assert (Eh : sum_by (fun c => Z.max 0 (- card_value c)) (keys card_values) = 5%Z)
    by reflexivity.
  rewrite El in Hl. rewrite Eh in Hh. lia.
Qed.

Lemma X4_witness : (- (20 * 1) <= running_count Scripted.s1 <= 20 * 1)%Z.
Proof.
  apply (X4_running_count_bounded Scripted.shuffle Scripted.choice Scripted.cfg0
           Scripted.g1 Scripted.s1 scripted_shuffle_perm scripted_s1_reachable).
Defined.

(** X5: at the top of the loop body of any run at least 51 cards are in
    the shoe: the reshuffle check keeps it from running lower. *)
Theorem X5_shoe_never_below_51 {G : Type}
    (shuffle : G -> list string -> G * list string)
    (choice : G -> Q * Q * Q -> G * outcome) (cfg : Config)
    (g : G) (s : RunState) :
  (forall g l, Permutation (snd (shuffle g l)) l) ->
  (1 <= num_decks cfg)%nat ->
  reachable shuffle choice cfg (g, s) ->
  (51 <= length (deck s) <= 52 * num_decks cfg)%nat.
Proof.
  intros Hperm Hdecks Hreach.
  pose proof (reachable_shoe_ok shuffle choice cfg Hperm Hdecks (g, s) Hreach)
    as [Hle _]. simpl in Hle.
  split; [| exact Hle].
  remember (g, s) as gs eqn:Egs.
  destruct Hreach as [g0 | g0 s0 g1 s1 Hprev Hhand].
  - assert (E : length (deck s) = (52 * num_decks cfg)%nat).
    { replace s with (snd (start shuffle cfg g0)) by now rewrite Egs.
      unfold start.
      pose proof (shuffled_cards shuffle cfg Hperm g0) as [Hl _].
      now destruct (shuffle g0 (cards (num_decks cfg))). }
    lia.
  - injection Egs as -> ->.
    pose proof (reachable_shoe_ok shuffle choice cfg Hperm Hdecks (g0, s0) Hprev)
      as Hok0.
    destruct (reshuffle_check_shoe shuffle cfg Hperm Hdecks g0 s0 Hok0) as [H52 _].
    destruct (play_hand_draw shuffle choice cfg g0 s0 g s Hhand)
      as (card & _ & _ & _ & Edeck & _).
    rewrite Edeck, length_app in H52. simpl in H52. lia.
Qed.

Lemma X5_witness : (51 <= length (deck Scripted.s1) <= 52 * 1)%nat.
Proof.
  apply (X5_shoe_never_below_51 Scripted.shuffle Scripted.choice Scripted.cfg0
           Scripted.g1 Scripted.s1 scripted_shuffle_perm).
  - simpl. lia.
  - exact scripted_s1_reachable.
Defined.



(** *** The betting policy (lines 66-69) *)

Lemma py_int_pos_bounds (x : Q) :
  0 <= x -> inject_Z (py_int x) <= x /\ x < inject_Z (py_int x + 1).
Proof.
  destruct x as [n d]. unfold Qle, Qlt, py_int. simpl. intro H.
  rewrite Z.quot_div_nonneg by lia.
  pose proof (Z.mul_div_le n (Zpos d) ltac:(lia)).
  pose proof (Z.mul_succ_div_gt n (Zpos d) ltac:(lia)).
  unfold Z.succ in *. split; nia.
Qed.

Lemma py_int_monotone (x y : Q) : 0 <= x -> x <= y -> (py_int x <= py_int y)%Z.
Proof.
  intros Hx Hxy.
  destruct (py_int_pos_bounds x Hx) as [Hlo _].
  destruct (py_int_pos_bounds y ltac:(lra)) as [_ Hhi].
  assert (H : inject_Z (py_int x) < inject_Z (py_int y + 1)) by lra.
  unfold Qlt in H. simpl in H. lia.
Qed.

Lemma py_min_monotone (a1 b1 a2 b2 : Q) :
  a1 <= a2 -> b1 <= b2 -> py_min a1 b1 <= py_min a2 b2.
Proof.
  intros Ha Hb.
  destruct (py_min_cases a1 b1) as [[-> H1] | [-> H1]];
  destruct (py_min_cases a2 b2) as [[-> H2] | [-> H2]]; lra.
Qed.

Lemma inject_Z_le (x y : Z) : (x <= y)%Z -> inject_Z x <= inject_Z y.
Proof. intro H. unfold Qle. simpl. lia. Qed.

(** The wager never exceeds the largest one the spread allows. *)
Lemma bet_size_cap (cfg : Config) (true_count bankroll : Q) :
  (0 <= min_bet cfg)%Z -> (1 <= spread cfg)%Z ->
  bet_size cfg true_count bankroll <= inject_Z (min_bet cfg * spread cfg).
Proof.
  intros Hm Hs. unfold bet_size.
  match goal with
  | |- py_min _ (inject_Z ?bet) <= _ =>
      assert (Hbet : (bet <= min_bet cfg * spread cfg)%Z)
  end.
  { destruct (Qlt_bool 1 true_count); nia. }
  apply inject_Z_le in Hbet.
  match goal with
  | |- py_min ?a ?b <= _ => destruct (py_min_cases a b) as [[-> H] | [-> H]]
  end; lra.
Qed.

(** X7: with a minimum bet that is not negative and a spread of at least
    1, the bet never exceeds [min_bet * spread], and it does not decrease
    when the true count or the bankroll grows. *)
Theorem X7_bet_capped_and_monotone (cfg : Config) (t1 t2 b1 b2 : Q) :
  (0 <= min_bet cfg)%Z -> (1 <= spread cfg)%Z ->
  t1 <= t2 -> b1 <= b2 ->
  bet_size cfg t2 b2 <= inject_Z (min_bet cfg * spread cfg)
  /\ bet_size cfg t1 b1 <= bet_size cfg t2 b2.
Proof.
  intros Hm Hs Ht Hb. split; [now apply bet_size_cap |].
  unfold bet_size. apply py_min_monotone; [exact Hb |]. apply inject_Z_le.
  destruct (Qlt_bool_cases 1 t1) as [[-> H1] | [-> H1]];
  destruct (Qlt_bool_cases 1 t2) as [[-> H2] | [-> H2]].
  - pose proof (py_int_monotone t1 t2 ltac:(lra) Ht). nia.
  - lra.
  - pose proof (py_int_ge_1 t2 H2). nia.
  - lia.
Qed.

Lemma X7_witness :
  bet_size Scripted.cfg0 (7 # 2) 4000 <= inject_Z (500 * 10)
  /\ bet_size Scripted.cfg0 (3 # 2) 1000 <= bet_size Scripted.cfg0 (7 # 2) 4000.
Proof.
  apply (X7_bet_capped_and_monotone Scripted.cfg0 (3 # 2) (7 # 2) 1000 4000);
    simpl; [lia | lia | lra | lra].
Defined.

(** X8: with a spread of at least 1 the multiplier is the integer part of
    the true count, capped by the spread: for an integer [k >= 1] and a
    true count in [[k, k + 1)] the bet is
    [min(bankroll, min_bet * min(spread, k))]; in particular the spread
    starts at a true count of 2, not above 1. *)
Theorem X8_bet_staircase (cfg : Config) (k : Z) (true_count bankroll : Q) :
  (1 <= spread cfg)%Z -> (1 <= k)%Z ->
  inject_Z k <= true_count -> true_count < inject_Z (k + 1) ->
  bet_size cfg true_count bankroll
    = py_min bankroll (inject_Z (min_bet cfg * Z.min (spread cfg) k)).
Proof.
  intros Hs Hk Hlo Hhi. unfold bet_size.
  assert (H1 : 1 <= true_count).
  { apply inject_Z_le in Hk. change (inject_Z 1) with 1 in Hk. lra. }
  assert (Eint : py_int true_count = k).
  { destruct (py_int_pos_bounds true_count ltac:(lra)) as [Hfl Hfu].
    assert (Ha : inject_Z (py_int true_count) < inject_Z (k + 1)) by lra.
    assert (Hb : inject_Z k < inject_Z (py_int true_count + 1)) by lra.
    unfold Qlt in Ha, Hb. simpl in Ha, Hb. lia. }
  rewrite Eint.
  destruct (Qlt_bool_cases 1 true_count) as [[-> H] | [-> H]]; [reflexivity |].
  assert (Ek : k = 1%Z).
  { assert (Hk1 : inject_Z k <= inject_Z 1) by (change (inject_Z 1) with 1; lra).
    unfold Qle in Hk1. simpl in Hk1. lia. }
  rewrite Ek. replace (Z.min (spread cfg) 1) with 1%Z by lia.
  now rewrite Z.mul_1_r.
Qed.

Lemma X8_witness :
  bet_size Scripted.cfg0 (7 # 4) 4000 = py_min 4000 (inject_Z (500 * Z.min 10 1)).
Proof.
  apply (X8_bet_staircase Scripted.cfg0 1 (7 # 4) 4000).
  - simpl. lia.
  - lia.
  - unfold Qle. simpl. lia.
  - unfold Qlt. simpl. lia.
Defined.

(** *** The trajectory of a run (lines 56-92) *)

(** The values the loop records form a chain of hands from the bankroll
    it starts with. *)
Lemma play_hands_chain {G : Type}
    (shuffle : G -> list string -> G * list string)
    (choice : G -> Q * Q * Q -> G * outcome) (cfg : Config) (n : nat) :
  forall (g : G) (s : RunState) (g' : G) (s' : RunState),
  0 < bankroll s ->
  play_hands shuffle choice cfg n g s = Ok (g', s') ->
  exists ext,
    bankrolls s' = bankrolls s ++ ext /\ chain (hand_step cfg) (bankroll s) ext.
Proof.
  induction n as [| n IH]; intros g s g' s' Hb.
  - simpl. intro H. injection H as <- <-. exists []. now rewrite app_nil_r.
  - cbn [play_hands].
    destruct (play_hand shuffle choice cfg g s) as [[g1 s1] |] eqn:E;
      cbn [bind]; [| discriminate].
    destruct (play_hand_inv shuffle choice cfg g s g1 s1 E)
      as (_ & tc & o & _ & Eb & Ebs).
    assert (Hstep : hand_step cfg (bankroll s) (bankroll s1)).
    { split; [exact Hb | now exists tc, o]. }
    destruct (Qle_bool (bankroll s1) 0) eqn:Eruin.
    + intro H. injection H as <- <-. exists [bankroll s1].
      split; [exact Ebs | simpl; auto].
    + intro H.
      assert (Hb1 : 0 < bankroll s1).
      { apply Qnot_le_lt. intro Hle. apply Qle_bool_iff in Hle. congruence. }
      destruct (IH g1 s1 g' s' Hb1 H) as (ext & Eext & Hchain).
      exists (bankroll s1 :: ext). split.
      * rewrite Eext, Ebs, <- app_assoc. reflexivity.
      * simpl. auto.
Qed.

(** X9: with a positive initial bankroll, the trajectory of a run is a
    chain of hands: its first value comes from the initial bankroll, and
    every later value from the one before it, by one wager of the
    betting policy on that positive bankroll, won, lost or pushed. *)
Theorem X9_trajectory_is_chain_of_hands {G : Type}
    (shuffle : G -> list string -> G * list string)
    (choice : G -> Q * Q * Q -> G * outcome) (cfg : Config) (g g' : G)
    (t : list Q) :
  (0 < initial_bankroll cfg)%Z ->
  simulate_single_run shuffle choice cfg g = Ok (g', t) ->
  chain (hand_step cfg) (inject_Z (initial_bankroll cfg)) t.
Proof.
  intros Hi. unfold simulate_single_run.
  destruct (start_money shuffle cfg g) as [Hb Hbs].
  destruct (start shuffle cfg g) as [g0 s0]. simpl in Hb, Hbs.
  destruct (play_hands shuffle choice cfg (num_hands cfg) g0 s0) as [[g1 s1] |] eqn:E;
    cbn [bind]; [| discriminate].
  intro H. injection H as <- <-.
  destruct (play_hands_chain shuffle choice cfg (num_hands cfg) g0 s0 g1 s1)
    as (ext & Eext & Hchain); [rewrite Hb; now apply inject_Z_pos | exact E |].
  rewrite Eext, Hbs, Hb in *. exact Hchain.
Qed.

Lemma X9_witness :
  chain (hand_step Scripted.cfg0) (inject_Z 1000) [500; 0].
Proof.
  apply (X9_trajectory_is_chain_of_hands Scripted.shuffle Scripted.choice
           Scripted.cfg0 [lose; lose; win] [win] [500; 0]).
  - simpl. lia.
  - vm_compute. reflexivity.
Defined.

Lemma hand_step_bounds (cfg : Config) (a b : Q) :
  (0 < min_bet cfg)%Z -> (1 <= spread cfg)%Z ->
  hand_step cfg a b ->
  a - inject_Z (min_bet cfg * spread cfg) <= b
  /\ b <= a + 1.5 * inject_Z (min_bet cfg * spread cfg).
Proof.
  intros Hm Hs [Ha (tc & o & ->)].
  destruct (bet_size_pos cfg tc a Ha Hm Hs) as [H1 H2].
  pose proof (bet_size_cap cfg tc a ltac:(lia) Hs) as H3.
  destruct o; simpl; split; lra.
Qed.

Lemma chain_bounds (cfg : Config) (t : list Q) :
  (0 < min_bet cfg)%Z -> (1 <= spread cfg)%Z ->
  forall (a : Q) (i : nat) (b : Q),
  chain (hand_step cfg) a t ->
  nth_error t i = Some b ->
  a - inject_Z (Z.of_nat (S i)) * inject_Z (min_bet cfg * spread cfg) <= b
  /\ b <= a + inject_Z (Z.of_nat (S i)) * (1.5 * inject_Z (min_bet cfg * spread cfg)).
Proof.
  intros Hm Hs.
  assert (HM : 0 <= inject_Z (min_bet cfg * spread cfg)).
  { change 0 with (inject_Z 0). apply inject_Z_le. nia. }
  induction t as [| b1 t IH]; intros a i b Hchain Hnth.
  - destruct i; discriminate Hnth.
  - destruct Hchain as [Hstep Hchain].
    destruct (hand_step_bounds cfg a b1 Hm Hs Hstep) as [Hlo Hhi].
    destruct i as [| j]; simpl in Hnth.
    + injection Hnth as <-. change (inject_Z (Z.of_nat 1)) with 1. split; lra.
    + destruct (IH b1 j b Hchain Hnth) as [Hlo' Hhi'].
      assert (EN : inject_Z (Z.of_nat (S (S j))) == inject_Z (Z.of_nat (S j)) + 1).
      { rewrite (Nat2Z.inj_succ (S j)). unfold Z.succ. now rewrite inject_Z_plus. }
      rewrite EN. split; nra.
Qed.

(** X10: with valid stakes the bankroll moves by at most one largest
    wager per hand: value number [i] of the trajectory (counting from 0)
    is at least the initial bankroll less [i + 1] times
    [min_bet * spread], and at most the initial bankroll plus [i + 1]
    times one and a half of it. *)
Theorem X10_trajectory_growth_bounded {G : Type}
    (shuffle : G -> list string -> G * list string)
    (choice : G -> Q * Q * Q -> G * outcome) (cfg : Config) (g g' : G)
    (t : list Q) (i : nat) (b : Q) :
  (0 < initial_bankroll cfg)%Z -> (0 < min_bet cfg)%Z -> (1 <= spread cfg)%Z ->
  simulate_single_run shuffle choice cfg g = Ok (g', t) ->
  nth_error t i = Some b ->
  inject_Z (initial_bankroll cfg)
    - inject_Z (Z.of_nat (S i)) * inject_Z (min_bet cfg * spread cfg) <= b
  /\ b <= inject_Z (initial_bankroll cfg)
          + inject_Z (Z.of_nat (S i)) * (1.5 * inject_Z (min_bet cfg * spread cfg)).
Proof.
  intros Hi Hm Hs. unfold simulate_single_run.
  destruct (start_money shuffle cfg g) as [Hb Hbs].
  destruct (start shuffle cfg g) as [g0 s0]. simpl in Hb, Hbs.
  destruct (play_hands shuffle choice cfg (num_hands cfg) g0 s0) as [[g1 s1] |] eqn:E;
    cbn [bind]; [| discriminate].
  intro H. injection H as <- <-. intro Hnth.
  destruct (play_hands_chain shuffle choice cfg (num_hands cfg) g0 s0 g1 s1)
    as (ext & Eext & Hchain); [rewrite Hb; now apply inject_Z_pos | exact E |].
  rewrite Eext, Hbs in Hnth. rewrite Hb in Hchain. simpl in Hnth.
  exact (chain_bounds cfg ext Hm Hs _ i b Hchain Hnth).
Qed.

Lemma X10_witness :
  inject_Z 1000 - inject_Z (Z.of_nat 2) * inject_Z (500 * 10) <= 0
  /\ 0 <= inject_Z 1000 + inject_Z (Z.of_nat 2) * (1.5 * inject_Z (500 * 10)).
Proof.
  apply (X10_trajectory_growth_bounded Scripted.shuffle Scripted.choice
           Scripted.cfg0 [lose; lose; win] [win] [500; 0] 1%nat 0).
  - simpl. lia.
  - simpl. lia.
  - simpl. lia.
  - vm_compute. reflexivity.
  - reflexivity.
Defined.

(** The loop either plays all its hands or stops on a value at or below
    zero. *)
Lemma play_hands_completes_or_ruins {G : Type}
    (shuffle : G -> list string -> G * list string)
    (choice : G -> Q * Q * Q -> G * outcome) (cfg : Config) (n : nat) :
  forall (g : G) (s : RunState) (g' : G) (s' : RunState),
  play_hands shuffle choice cfg n g s = Ok (g', s') ->
  length (bankrolls s') = (length (bankrolls s) + n)%nat
  \/ (exists pre b, bankrolls s' = pre ++ [b] /\ b <= 0).
Proof.
  induction n as [| n IH]; intros g s g' s'.
  - simpl. intro H. injection H as <- <-. left. lia.
  - cbn [play_hands].
    destruct (play_hand shuffle choice cfg g s) as [[g1 s1] |] eqn:E;
      cbn [bind]; [| discriminate].
    destruct (play_hand_inv shuffle choice cfg g s g1 s1 E)
      as (_ & _ & _ & _ & _ & Ebs).
    destruct (Qle_bool (bankroll s1) 0) eqn:Eruin.
    + intro H. injection H as <- <-. right.
      exists (bankrolls s), (bankroll s1). split; [exact Ebs |].
      now apply Qle_bool_iff.
    + intro H. destruct (IH g1 s1 g' s' H) as [Hlen | Hruin]; [left | now right].
      rewrite Hlen, Ebs, length_app. simpl. lia.
Qed.

(** X11: a run stops early only on ruin: its trajectory either has
    exactly [num_hands] values or ends on a value at or below zero. *)
Theorem X11_full_length_or_ruined {G : Type}
    (shuffle : G -> list string -> G * list string)
    (choice : G -> Q * Q * Q -> G * outcome) (cfg : Config) (g g' : G)
    (t : list Q) :
  simulate_single_run shuffle choice cfg g = Ok (g', t) ->
  length t = num_hands cfg
  \/ (exists pre b, t = pre ++ [b] /\ b <= 0).
Proof.
  unfold simulate_single_run.
  destruct (start_money shuffle cfg g) as [_ Hbs].
  destruct (start shuffle cfg g) as [g0 s0]. simpl in Hbs.
  destruct (play_hands shuffle choice cfg (num_hands cfg) g0 s0) as [[g1 s1] |] eqn:E;
    cbn [bind]; [| discriminate].
  intro H. injection H as <- <-.
  destruct (play_hands_completes_or_ruins shuffle choice cfg (num_hands cfg)
              g0 s0 g1 s1 E) as [Hlen | Hruin]; [left | now right].
  rewrite Hlen, Hbs. reflexivity.
Qed.

Lemma X11_witness :
  length [1750.0; 1250.0; 1250.0; 1250.0; 1250.0] = 5%nat
  \/ (exists pre b, [1750.0; 1250.0; 1250.0; 1250.0; 1250.0] = pre ++ [b] /\ b <= 0).
Proof.
  apply (X11_full_length_or_ruined Scripted.shuffle Scripted.choice Scripted.cfg0
           [win; lose] [] [1750.0; 1250.0; 1250.0; 1250.0; 1250.0]).
  vm_compute. reflexivity.
Defined.

(** *** The outcome model (lines 72-79) *)


(** X13: on binary64 the corrected probabilities miss 1.0 on both flat
    parts of the win probability: whenever the true count does not
    exceed 1, and whenever the bonus has reached its cap, they sum to
    1.0000000000000002. *)
Theorem X13_binary64_sum_on_flat_parts (true_count : float) :
  PrimFloat.ltb 0 (true_count - 1) = false
  \/ (PrimFloat.ltb 0 (true_count - 1) = true
      /\ PrimFloat.ltb 0.05 (0.01 * (true_count - 1)) = true) ->
  Binary64.prob_sum (Binary64.outcome_probs true_count) = 1.0000000000000002%float.
Proof.
  unfold Binary64.outcome_probs, Binary64.win_prob, Binary64.py_max, Binary64.py_min.
  intros [-> | [-> ->]]; vm_compute; reflexivity.
Qed.

Lemma X13_witness :
  Binary64.prob_sum (Binary64.outcome_probs 7.5%float) = 1.0000000000000002%float.
Proof.
  apply (X13_binary64_sum_on_flat_parts 7.5%float).
  right. split; vm_compute; reflexivity.
Defined.

(** *** The padding (lines 96-97) *)

Lemma last_item_snoc {A : Type} (pre : list A) (x : A) : last_item (pre ++ [x]) = Ok x.
Proof. unfold last_item. now rewrite rev_app_distr. Qed.

Lemma last_item_inv {A : Type} (r : list A) (x : A) :
  last_item r = Ok x -> exists pre, r = pre ++ [x].
Proof.
  unfold last_item. destruct (rev r) as [| y t] eqn:E; [discriminate |].
  intro H. injection H as <-. exists (rev t).
  rewrite <- (rev_involutive r), E. reflexivity.
Qed.

Lemma last_item_padded {A : Type} (pre : list A) (x : A) (k : nat) :
  last_item ((pre ++ [x]) ++ repeat x k) = Ok x.
Proof.
  destruct k as [| k].
  - simpl. rewrite app_nil_r. apply last_item_snoc.
  - cbn [repeat]. rewrite repeat_cons, app_assoc. apply last_item_snoc.
Qed.

Lemma pad_to_empty {A : Type} (m : nat) : pad_to m ([] : list A) = Raise IndexError.
Proof. reflexivity. Qed.

Lemma map_pad_to_empty {A : Type} (m : nat) (rs : list (list A)) :
  In [] rs -> map_result (pad_to m) rs = Raise IndexError.
Proof.
  induction rs as [| r rs IH]; [contradiction |].
  intros [-> | Hin]; [reflexivity |].
  cbn [map_result]. destruct r as [| a r]; [reflexivity |].
  destruct (pad_to_ok m (a :: r) ltac:(discriminate)) as (pre & final & _ & ->).
  cbn [bind]. now rewrite (IH Hin).
Qed.

(** X14: padding raises on a degenerate batch: [ValueError] when there
    is no trajectory at all (the maximum of nothing), [IndexError] as
    soon as one trajectory is empty (it has no last value to repeat). *)
Theorem X14_padding_errors {A : Type} :
  padded_results ([] : list (list A)) = Raise ValueError
  /\ forall rs : list (list A), In [] rs -> padded_results rs = Raise IndexError.
Proof.
  split; [reflexivity |].
  intros rs Hin. unfold padded_results.
  destruct rs as [| r rs]; [contradiction |].
  cbn [max_len bind]. now apply map_pad_to_empty.
Qed.

Lemma X14_witness :
  padded_results [[1000; 1500]; []; [900]] = Raise IndexError.
Proof.
  apply (proj2 X14_padding_errors [[1000; 1500]; []; [900]]).
  simpl. tauto.
Defined.

Lemma map_pad_to_finals (m : nat) (rs : list (list Q)) :
  Forall (fun r => r <> []) rs ->
  exists rows finals,
    map_result (pad_to m) rs = Ok rows
    /\ final_bankrolls rs = Ok finals
    /\ final_bankrolls rows = Ok finals
    /\ Forall2 (fun r row => firstn (length r) row = r) rs rows.
Proof.
  induction 1 as [| r rs Hne _ IH].
  - exists [], []. repeat split. constructor.
  - destruct IH as (rows & finals & E & Ef & Efr & Hpre).
    destruct (pad_to_ok m r Hne) as (pre & final & Er & Epad).
    exists ((r ++ repeat final (m - length r)) :: rows), (final :: finals).
    unfold final_bankrolls in *. cbn [map_result].
    rewrite Epad, E, Ef, Efr. cbn [bind].
    assert (L1 : last_item r = Ok final) by (rewrite Er; apply last_item_snoc).
    assert (L2 : last_item (r ++ repeat final (m - length r)) = Ok final)
      by (rewrite Er; apply last_item_padded).
    rewrite L1, L2. cbn [bind].
    repeat split. constructor; [| exact Hpre].
    rewrite firstn_app, Nat.sub_diag, firstn_all. simpl. apply app_nil_r.
Qed.

(** X15: padding keeps every trajectory as the start of its row and
    keeps its last value as the last value of the row, so the final
    bankrolls read off the padded matrix are those of the trajectories
    themselves. *)
Theorem X15_padding_keeps_runs_and_finals (all_results : list (list Q)) :
  all_results <> [] ->
  Forall (fun r => r <> []) all_results ->
  exists rows finals,
    padded_results all_results = Ok rows
    /\ final_bankrolls all_results = Ok finals
    /\ final_bankrolls rows = Ok finals
    /\ Forall2 (fun r row => firstn (length r) row = r) all_results rows.
Proof.
  intros Hne Hall.
  destruct (max_len_spec all_results Hne) as (m & Em & _).
  destruct (map_pad_to_finals m all_results Hall) as (rows & finals & E & H).
  exists rows, finals. unfold padded_results. rewrite Em. cbn [bind].
  split; [exact E | exact H].
Qed.

Lemma X15_witness :
  exists rows finals,
    padded_results [[500; 0]; [1750; 1250; 2000]] = Ok rows
    /\ final_bankrolls [[500; 0]; [1750; 1250; 2000]] = Ok finals
    /\ final_bankrolls rows = Ok finals
    /\ Forall2 (fun r row => firstn (length r) row = r)
         [[500; 0]; [1750; 1250; 2000]] rows.
Proof.
  apply (X15_padding_keeps_runs_and_finals [[500; 0]; [1750; 1250; 2000]]).
  - discriminate.
  - repeat constructor; discriminate.
Defined.

Lemma map_result_Forall2 {A B : Type} (f : A -> result B) (l : list A) :
  forall bs, map_result f l = Ok bs -> Forall2 (fun a b => f a = Ok b) l bs.
Proof.
  induction l as [| a l IH]; intros bs; cbn [map_result].
  - intro H. injection H as <-. constructor.
  - destruct (f a) as [b |] eqn:Ea; cbn [bind]; [| discriminate].
    destruct (map_result f l) as [bs' |]; cbn [bind]; [| discriminate].
    intro H. injection H as <-. constructor; [exact Ea | now apply IH].
Qed.

Lemma padded_results_inv {A : Type} (rs rows : list (list A)) :
  padded_results rs = Ok rows ->
  rs <> [] /\ Forall (fun r => r <> []) rs.
Proof.
  unfold padded_results. destruct rs as [| r0 rs0] eqn:Ers; [discriminate |].
  rewrite <- Ers. intro H. split; [congruence |].
  destruct (max_len rs) as [m |]; cbn [bind] in H; [| discriminate].
  apply map_result_Forall2 in H.
  clear Ers. induction H as [| r row rs' rows' Hpad _ IH]; constructor; [| exact IH].
  intros ->. discriminate Hpad.
Qed.

Lemma pad_rectangular {A : Type} (m : nat) (rows : list (list A)) :
  (1 <= m)%nat ->
  Forall (fun row => length row = m) rows ->
  map_result (pad_to m) rows = Ok rows.
Proof.
  intro Hm. induction 1 as [| row rows Hlen _ IH]; [reflexivity |].
  cbn [map_result].
  destruct (pad_to_ok m row) as (pre & final & _ & ->).
  { intros ->. simpl in Hlen. lia. }
  rewrite IH. cbn [bind]. rewrite Hlen, Nat.sub_diag. simpl.
  now rewrite app_nil_r.
Qed.

(** X16: padding is idempotent: a matrix that padding produced is
    returned unchanged when it is padded again. *)
Theorem X16_padding_idempotent {A : Type} (all_results rows : list (list A)) :
  padded_results all_results = Ok rows ->
  padded_results rows = Ok rows.
Proof.
  intro H. destruct (padded_results_inv all_results rows H) as [Hne Hall].
  destruct (max_len_spec all_results Hne) as (m & Em & Hle & (r & Hin & Hr)).
  destruct (map_pad_to_ok m all_results Hall) as (rows' & E & Hlen & Hrect & _).
  unfold padded_results in H. rewrite Em in H. cbn [bind] in H.
  rewrite E in H. injection H as ->.
  specialize (Hrect Hle).
  assert (Hm : (1 <= m)%nat).
  { rewrite Forall_forall in Hall. specialize (Hall r Hin).
    destruct r; [congruence | simpl in Hr; lia]. }
  assert (Hne' : rows <> []).
  { intros ->. destruct all_results; [congruence | discriminate Hlen]. }
  destruct (max_len_spec rows Hne') as (m' & Em' & _ & (row & Hin' & Hrow)).
  rewrite Forall_forall in Hrect. rewrite (Hrect row Hin') in Hrow. subst m'.
  unfold padded_results. rewrite Em'. cbn [bind].
  apply pad_rectangular; [exact Hm | now apply Forall_forall].
Qed.

Lemma X16_witness :
  padded_results [[500; 500]; [1750; 1250]] = Ok [[500; 500]; [1750; 1250]].
Proof.
  apply (X16_padding_idempotent [[500]; [1750; 1250]] [[500; 500]; [1750; 1250]]).
  reflexivity.
Defined.

(** *** The statistics (lines 100-104) *)

Lemma inject_nat_succ (n : nat) :
  inject_Z (Z.of_nat (S n)) == inject_Z (Z.of_nat n) + 1.
Proof. rewrite Nat2Z.inj_succ. unfold Z.succ. now rewrite inject_Z_plus. Qed.

Lemma inject_nat_nonneg (n : nat) : 0 <= inject_Z (Z.of_nat n).
Proof. change 0 with (inject_Z 0). apply inject_Z_le. lia. Qed.

Lemma Qsum_bounds (lo hi : Q) (l : list Q) :
  Forall (fun x => lo <= x <= hi) l ->
  inject_Z (Z.of_nat (length l)) * lo <= Qsum l
  /\ Qsum l <= inject_Z (Z.of_nat (length l)) * hi.
Proof.
  induction 1 as [| x l [Hlo Hhi] _ [IHlo IHhi]].
  - cbn [length Qsum fold_right]. change (inject_Z (Z.of_nat 0)) with 0. split; lra.
  - cbn [length Qsum fold_right]. fold (Qsum l).
    rewrite inject_nat_succ. split; nra.
Qed.

Lemma length_pos_Q (l : list Q) : l <> [] -> 0 < inject_Z (Z.of_nat (length l)).
Proof.
  intro Hne. destruct l as [| x l]; [congruence |].
  cbn [length]. rewrite inject_nat_succ.
  pose proof (inject_nat_nonneg (length l)). lra.
Qed.

Lemma mean_times_length (l : list Q) :
  l <> [] -> mean l * inject_Z (Z.of_nat (length l)) == Qsum l.
Proof.
  intro Hne. unfold mean. field.
  pose proof (length_pos_Q l Hne). lra.
Qed.

(** The mean of a non-empty vector lies between any two bounds of its
    entries. *)
Lemma mean_bounds (lo hi : Q) (l : list Q) :
  l <> [] ->
  Forall (fun x => lo <= x <= hi) l ->
  lo <= mean l <= hi.
Proof.
  intros Hne Hall.
  pose proof (length_pos_Q l Hne) as HN.
  pose proof (mean_times_length l Hne) as E.
  destruct (Qsum_bounds lo hi l Hall) as [Hlo Hhi].
  split; nra.
Qed.

Lemma ruined_entries (l : list Q) : Forall (fun x => 0 <= x <= 1) (ruined l).
Proof.
  unfold ruined. induction l as [| b l IH]; simpl; constructor; [| exact IH].
  destruct (Qle_bool b 0); split; lra.
Qed.

Lemma ruined_sum_zero (l : list Q) :
  Qsum (ruined l) == 0 <-> Forall (fun b => 0 < b) l.
Proof.
  induction l as [| b l IH]; simpl.
  - split; [constructor | reflexivity].
  - fold (Qsum (ruined l)).
    destruct (Qsum_bounds 0 1 (ruined l) (ruined_entries l)) as [Hlo _].
    rewrite Qmult_0_r in Hlo.
    destruct (Qle_bool b 0) eqn:E.
    + split; [intro H; lra |].
      intro H. inversion H as [| ? ? Hb _]; subst.
      apply Qle_bool_iff in E. lra.
    + rewrite Qplus_0_l, IH. split.
      * intro H. constructor; [| exact H].
        apply Qnot_le_lt. intro Hle. apply Qle_bool_iff in Hle. congruence.
      * intro H. now inversion H.
Qed.

Lemma ruined_sum_all (l : list Q) :
  Qsum (ruined l) == inject_Z (Z.of_nat (length (ruined l)))
  <-> Forall (fun b => b <= 0) l.
Proof.
  induction l as [| b l IH]; cbn [ruined map length Qsum fold_right].
  - split; [constructor | reflexivity].
  - fold (ruined l). fold (Qsum (ruined l)).
    destruct (Qsum_bounds 0 1 (ruined l) (ruined_entries l)) as [_ Hhi].
    rewrite Qmult_1_r in Hhi. rewrite inject_nat_succ.
    destruct (Qle_bool b 0) eqn:E.
    + split.
      * intro H. constructor; [now apply Qle_bool_iff |]. apply IH. lra.
      * intro H. inversion H as [| ? ? _ Hl]; subst. apply IH in Hl. lra.
    + split; [intro H; lra |].
      intro H. inversion H as [| ? ? Hb _]; subst.
      apply Qle_bool_iff in Hb. congruence.
Qed.

(** X17: for a non-empty vector of final bankrolls the risk of ruin is a
    percentage between 0 and 100; it is 0 exactly when every final
    bankroll is positive and 100 exactly when none is. *)
Theorem X17_risk_of_ruin_range (finals : list Q) :
  finals <> [] ->
  0 <= risk_of_ruin finals <= 100
  /\ (risk_of_ruin finals == 0 <-> Forall (fun b => 0 < b) finals)
  /\ (risk_of_ruin finals == 100 <-> Forall (fun b => b <= 0) finals).
Proof.
  intro Hne. unfold risk_of_ruin.
  assert (Hne' : ruined finals <> []).
  { destruct finals; [congruence | discriminate]. }
  pose proof (mean_bounds 0 1 (ruined finals) Hne' (ruined_entries finals)) as [H0 H1].
  pose proof (length_pos_Q (ruined finals) Hne') as HN.
  pose proof (mean_times_length (ruined finals) Hne') as E.
  split; [split; lra | split].
  - rewrite <- ruined_sum_zero. split; intro H; nra.
  - rewrite <- ruined_sum_all. split; intro H; nra.
Qed.

Lemma X17_witness :
  0 <= risk_of_ruin [0; 1250; 0; 2000] <= 100
  /\ (risk_of_ruin [0; 1250; 0; 2000] == 0
      <-> Forall (fun b => 0 < b) [0; 1250; 0; 2000])
  /\ (risk_of_ruin [0; 1250; 0; 2000] == 100
      <-> Forall (fun b => b <= 0) [0; 1250; 0; 2000]).
Proof.
  apply (X17_risk_of_ruin_range [0; 1250; 0; 2000]). discriminate.
Defined.

(** X18: for a non-empty vector of final bankrolls and a positive
    initial bankroll, the return on investment is not negative exactly
    when the mean final bankroll is at least the initial one, and it is
    never below -100 when no final bankroll is negative. *)
Theorem X18_roi_sign_and_floor (cfg : Config) (finals : list Q) :
  (0 < initial_bankroll cfg)%Z ->
  finals <> [] ->
  (0 <= roi cfg finals <-> inject_Z (initial_bankroll cfg) <= mean finals)
  /\ (Forall (fun b => 0 <= b) finals -> -100 <= roi cfg finals).
Proof.
  intros Hi Hne. apply inject_Z_pos in Hi.
  set (I := inject_Z (initial_bankroll cfg)) in *.
  assert (E : roi cfg finals * I == (mean finals - I) * 100).
  { unfold roi. fold I. field. lra. }
  split.
  - split; intro H; nra.
  - intro Hall.
    assert (Hs : 0 <= Qsum finals).
    { clear - Hall. induction Hall as [| x l Hx _ IH]; simpl; [lra |].
      fold (Qsum l). lra. }
    pose proof (length_pos_Q finals Hne) as HN.
    pose proof (mean_times_length finals Hne) as Em.
    assert (Hm : 0 <= mean finals) by nra.
    nra.
Qed.

Lemma X18_witness :
  (0 <= roi Scripted.cfg0 [0; 1250; 2000]
   <-> inject_Z 1000 <= mean [0; 1250; 2000])
  /\ (Forall (fun b => 0 <= b) [0; 1250; 2000] -> -100 <= roi Scripted.cfg0 [0; 1250; 2000]).
Proof.
  apply (X18_roi_sign_and_floor Scripted.cfg0 [0; 1250; 2000]).
  - simpl. lia.
  - discriminate.
Defined.

(** *** Degenerate configurations (lines 44, 56, 62, 95-97) *)

Lemma zero_hands_runs {G : Type}
    (shuffle : G -> list string -> G * list string)
    (choice : G -> Q * Q * Q -> G * outcome) (cfg : Config) :
  num_hands cfg = 0%nat ->
  forall (n : nat) (g : G),
  exists g', simulate_runs shuffle choice cfg n g = Ok (g', repeat [] n).
Proof.
  intros Hh. induction n as [| n IH]; intro g.
  - now exists g.
  - cbn [simulate_runs]. unfold simulate_single_run. rewrite Hh.
    destruct (start_money shuffle cfg g) as [_ Hbs].
    destruct (start shuffle cfg g) as [g0 s0]. simpl in Hbs.
    cbn [play_hands bind]. rewrite Hbs.
    destruct (IH g0) as [g' ->]. cbn [bind]. now exists g'.
Qed.

(** X19: with a hand limit of 0 every trajectory is empty, so with at
    least one simulation the aggregation raises [IndexError] (there is
    no last value to pad with), whatever the shuffle and the sampler. *)
Theorem X19_zero_hands_raises {G : Type}
    (shuffle : G -> list string -> G * list string)
    (choice : G -> Q * Q * Q -> G * outcome) (cfg : Config) (g : G) :
  num_hands cfg = 0%nat ->
  (1 <= num_simulations cfg)%nat ->
  (exists g', simulate_single_run shuffle choice cfg g = Ok (g', []))
  /\ run_simulations shuffle choice cfg g = Raise IndexError.
Proof.
  intros Hh Hs. split.
  - destruct (zero_hands_runs shuffle choice cfg Hh 1 g) as [g' E].
    cbn [simulate_runs] in E.
    destruct (simulate_single_run shuffle choice cfg g) as [[g1 t] |];
      cbn [bind] in E; [| discriminate].
    injection E as _ ->. now exists g1.
  - unfold run_simulations, all_results.
    destruct (zero_hands_runs shuffle choice cfg Hh (num_simulations cfg) g) as [g' ->].
    cbn [bind].
    destruct (num_simulations cfg) as [| n]; [lia |].
    cbn [repeat max_len bind].
    assert (E : padded_results (([] : list Q) :: repeat [] n) = Raise IndexError)
      by reflexivity.
    now rewrite E.
Qed.

Lemma X19_witness :
  (exists g', simulate_single_run Scripted.shuffle Scripted.choice
                (Build_Config 1000 100 10 3 0 8) [win] = Ok (g', []))
  /\ run_simulations Scripted.shuffle Scripted.choice
       (Build_Config 1000 100 10 3 0 8) [win] = Raise IndexError.
Proof.
  apply (X19_zero_hands_raises Scripted.shuffle Scripted.choice
           (Build_Config 1000 100 10 3 0 8) [win]).
  - reflexivity.
  - simpl. lia.
Defined.

(** X20: with no deck the shoe is empty and stays empty over a
    reshuffle, so with at least one hand to play the first draw raises
    [IndexError]. *)
Theorem X20_zero_decks_raises {G : Type}
    (shuffle : G -> list string -> G * list string)
    (choice : G -> Q * Q * Q -> G * outcome) (cfg : Config) (g : G) :
  (forall g l, Permutation (snd (shuffle g l)) l) ->
  num_decks cfg = 0%nat ->
  (1 <= num_hands cfg)%nat ->
  simulate_single_run shuffle choice cfg g = Raise IndexError.
Proof.
  intros Hperm Hd Hh.
  assert (Hnil : forall g, snd (shuffle g (cards (num_decks cfg))) = []).
  { intro g0. rewrite Hd. apply Permutation_nil, Permutation_sym, Hperm. }
  unfold simulate_single_run, start.
  pose proof (Hnil g) as E0.
  destruct (shuffle g (cards (num_decks cfg))) as [g0 d0]. simpl in E0. subst d0.
  destruct (num_hands cfg) as [| n]; [lia |].
  cbn [play_hands]. unfold play_hand, reshuffle_check. cbn [deck length Nat.ltb Nat.leb].
  pose proof (Hnil g0) as E1.
  destruct (shuffle g0 (cards (num_decks cfg))) as [g1 d1]. simpl in E1. subst d1.
  reflexivity.
Qed.

Lemma X20_witness :
  simulate_single_run Scripted.shuffle Scripted.choice
    (Build_Config 1000 100 10 3 100 0) [win] = Raise IndexError.
Proof.
  apply (X20_zero_decks_raises Scripted.shuffle Scripted.choice
           (Build_Config 1000 100 10 3 100 0) [win] scripted_shuffle_perm).
  - reflexivity.
  - simpl. lia.
Defined.

(** *** From the runs to the reported figures (lines 95-104) *)

Lemma Qsum_nonneg (l : list Q) : Forall (fun x => 0 <= x) l -> 0 <= Qsum l.
Proof.
  induction 1 as [| x l Hx _ IH]; simpl; [lra |]. fold (Qsum l). lra.
Qed.

Lemma mean_nonneg (l : list Q) : l <> [] -> Forall (fun x => 0 <= x) l -> 0 <= mean l.
Proof.
  intros Hne Hall.
  pose proof (Qsum_nonneg l Hall). pose proof (length_pos_Q l Hne).
  pose proof (mean_times_length l Hne). nra.
Qed.

Lemma pad_to_inv {A : Type} (m : nat) (r row : list A) :
  pad_to m r = Ok row ->
  exists pre x, r = pre ++ [x] /\ row = r ++ repeat x (m - length r).
Proof.
  unfold pad_to. destruct (last_item r) as [x |] eqn:E; cbn [bind]; [| discriminate].
  intro H. injection H as <-. destruct (last_item_inv r x E) as [pre Er].
  exists pre, x. split; [exact Er | now rewrite list_mul_singleton].
Qed.

Lemma padded_rows_Forall {A : Type} (P : A -> Prop) (m : nat) (rs rows : list (list A)) :
  Forall (Forall P) rs ->
  map_result (pad_to m) rs = Ok rows ->
  Forall (Forall P) rows.
Proof.
  intros Hall H. apply map_result_Forall2 in H.
  induction H as [| r row rs rows Hpad _ IH]; [constructor |].
  inversion Hall as [| ? ? Hr Hrs]; subst.
  constructor; [| now apply IH].
  destruct (pad_to_inv m r row Hpad) as (pre & x & Er & ->).
  apply Forall_app. split; [exact Hr |].
  assert (Hx : P x).
  { rewrite Er in Hr. apply Forall_app in Hr. destruct Hr as [_ Hx]. now inversion Hx. }
  clear - Hx. induction (m - length r)%nat; simpl; constructor; assumption.
Qed.

Lemma finals_Forall (P : Q -> Prop) (rs : list (list Q)) (finals : list Q) :
  Forall (Forall P) rs ->
  final_bankrolls rs = Ok finals ->
  length finals = length rs /\ Forall P finals.
Proof.
  intros Hall H. apply map_result_Forall2 in H.
  induction H as [| r x rs finals Hlast _ IH]; [split; [reflexivity | constructor] |].
  inversion Hall as [| ? ? Hr Hrs]; subst.
  destruct (IH Hrs) as [Hlen Hf]. split; [simpl; now rewrite Hlen |].
  constructor; [| exact Hf].
  destruct (last_item_inv r x Hlast) as [pre ->].
  apply Forall_app in Hr. destruct Hr as [_ Hx]. now inversion Hx.
Qed.

(** One run of a valid configuration: it returns, and its trajectory is
    non-empty, within the hand limit and free of negative values. *)
Lemma single_run_facts {G : Type}
    (shuffle : G -> list string -> G * list string)
    (choice : G -> Q * Q * Q -> G * outcome) (cfg : Config) (g : G) :
  (forall g l, Permutation (snd (shuffle g l)) l) ->
  (1 <= num_decks cfg)%nat -> (1 <= num_hands cfg)%nat ->
  (0 < initial_bankroll cfg)%Z -> (0 < min_bet cfg)%Z -> (1 <= spread cfg)%Z ->
  exists g' t,
    simulate_single_run shuffle choice cfg g = Ok (g', t)
    /\ t <> [] /\ (length t <= num_hands cfg)%nat /\ Forall (fun b => 0 <= b) t.
Proof.
  intros Hperm Hdecks Hhands Hi Hm Hs. unfold simulate_single_run.
  destruct (play_hands_from_start shuffle choice cfg g Hperm Hdecks)
    as (g' & s' & E & Hge & Hle).
  destruct (start_money shuffle cfg g) as [Hb Hbs].
  assert (Hall : Forall (fun b => 0 <= b) (bankrolls s')).
  { apply (play_hands_nonneg shuffle choice cfg (num_hands cfg) Hm Hs
             (fst (start shuffle cfg g)) (snd (start shuffle cfg g)) g' s');
      [| | exact E].
    - rewrite Hb. now apply inject_Z_pos.
    - rewrite Hbs. constructor. }
  destruct (start shuffle cfg g) as [g0 s0]. simpl in E.
  rewrite E. cbn [bind]. exists g', (bankrolls s').
  split; [reflexivity | split; [| split; [exact Hle | exact Hall]]].
  intro Hnil. rewrite Hnil in Hge. cbn [length] in Hge. lia.
Qed.

Lemma simulate_runs_facts {G : Type}
    (shuffle : G -> list string -> G * list string)
    (choice : G -> Q * Q * Q -> G * outcome) (cfg : Config) :
  (forall g l, Permutation (snd (shuffle g l)) l) ->
  (1 <= num_decks cfg)%nat -> (1 <= num_hands cfg)%nat ->
  (0 < initial_bankroll cfg)%Z -> (0 < min_bet cfg)%Z -> (1 <= spread cfg)%Z ->
  forall (n : nat) (g : G),
  exists g' rs,
    simulate_runs shuffle choice cfg n g = Ok (g', rs)
    /\ length rs = n
    /\ Forall (fun r => r <> []) rs
    /\ Forall (fun r => (length r <= num_hands cfg)%nat) rs
    /\ Forall (Forall (fun b => 0 <= b)) rs.
Proof.
  intros Hperm Hdecks Hhands Hi Hm Hs.
  induction n as [| n IH]; intro g.
  - exists g, []. repeat split; constructor.
  - cbn [simulate_runs].
    destruct (single_run_facts shuffle choice cfg g Hperm Hdecks Hhands Hi Hm Hs)
      as (g1 & t & -> & Hne & Hlen & Hpos).
    cbn [bind].
    destruct (IH g1) as (g2 & rs & -> & Hn & H1 & H2 & H3). cbn [bind].
    exists g2, (t :: rs).
    split; [reflexivity |]. split; [simpl; now rewrite Hn |].
    repeat split; constructor; assumption.
Qed.

(** X21: a valid configuration always yields its figures: the matrix
    has [num_simulations] rows of one common length between 1 and
    [num_hands] and no negative entry; the average trajectory has that
    length and no negative entry; there is one final bankroll per
    simulation, none negative; the return on investment is at least -100
    and the risk of ruin lies between 0 and 100. *)
Theorem X21_valid_batch_summary {G : Type}
    (shuffle : G -> list string -> G * list string)
    (choice : G -> Q * Q * Q -> G * outcome) (cfg : Config) (g : G) :
  (forall g l, Permutation (snd (shuffle g l)) l) ->
  (1 <= num_decks cfg)%nat -> (1 <= num_hands cfg)%nat ->
  (1 <= num_simulations cfg)%nat ->
  (0 < initial_bankroll cfg)%Z -> (0 < min_bet cfg)%Z -> (1 <= spread cfg)%Z ->
  exists sm max_length,
    run_simulations shuffle choice cfg g = Ok sm
    /\ (1 <= max_length <= num_hands cfg)%nat
    /\ length (array_results sm) = num_simulations cfg
    /\ Forall (fun row => length row = max_length) (array_results sm)
    /\ Forall (Forall (fun b => 0 <= b)) (array_results sm)
    /\ length (summary_avg_bankroll sm) = max_length
    /\ Forall (fun b => 0 <= b) (summary_avg_bankroll sm)
    /\ length (summary_final_bankrolls sm) = num_simulations cfg
    /\ Forall (fun b => 0 <= b) (summary_final_bankrolls sm)
    /\ -100 <= summary_roi sm
    /\ 0 <= summary_risk_of_ruin sm <= 100.
Proof.
  intros Hperm Hdecks Hhands Hsims Hi Hm Hs.
  unfold run_simulations, all_results.
  destruct (simulate_runs_facts shuffle choice cfg Hperm Hdecks Hhands Hi Hm Hs
              (num_simulations cfg) g) as (g' & rs & -> & Hn & Hne & Hlen & Hpos).
  cbn [bind].
  assert (Hrs : rs <> []) by (intros ->; simpl in Hn; lia).
  destruct (max_len_spec rs Hrs) as (m & Em & Hle & (r & Hin & Hr)).
  rewrite Em. cbn [bind]. unfold padded_results. rewrite Em. cbn [bind].
  destruct (map_pad_to_ok m rs Hne) as (rows & E & Hrows & Hrect & _).
  specialize (Hrect Hle).
  destruct (map_pad_to_finals m rs Hne) as (rows' & finals & E' & _ & Ef & _).
  rewrite E in E'. injection E' as <-.
  rewrite E. cbn [bind]. rewrite Ef. cbn [bind].
  pose proof (padded_rows_Forall (fun b => 0 <= b) m rs rows Hpos E) as Hrpos.
  destruct (finals_Forall (fun b => 0 <= b) rows finals Hrpos Ef) as [Hflen Hfpos].
  assert (Hfne : finals <> []).
  { intros ->. simpl in Hflen. rewrite Hrows, Hn in Hflen. lia. }
  assert (Hm1 : (1 <= m <= num_hands cfg)%nat).
  { rewrite Forall_forall in Hne, Hlen.
    specialize (Hne r Hin). specialize (Hlen r Hin).
    destruct r; [congruence | simpl in Hr, Hlen; lia]. }
  eexists _, m. split; [reflexivity |]. cbn.
  split; [exact Hm1 |]. split; [now rewrite Hrows |].
  split; [exact Hrect |]. split; [exact Hrpos |].
  split; [unfold avg_bankroll; now rewrite length_map, length_seq |].
  split.
  { unfold avg_bankroll. apply Forall_forall. intros x Hx.
    apply in_map_iff in Hx. destruct Hx as (j & <- & _).
    apply mean_nonneg.
    - destruct rows; [simpl in Hrows; rewrite Hn in Hrows; lia | discriminate].
    - apply Forall_forall. intros y Hy.
      apply in_map_iff in Hy. destruct Hy as (row & <- & Hrow).
      rewrite Forall_forall in Hrpos. specialize (Hrpos row Hrow).
      destruct (nth_in_or_default j row 0) as [Hnth | ->]; [| lra].
      rewrite Forall_forall in Hrpos. now apply Hrpos. }
  split; [now rewrite Hflen, Hrows |]. split; [exact Hfpos |].
  split.
  - apply inject_Z_pos in Hi.
    pose proof (mean_nonneg finals Hfne Hfpos) as Hmean.
    assert (Eroi : roi cfg finals * inject_Z (initial_bankroll cfg)
                   == (mean finals - inject_Z (initial_bankroll cfg)) * 100).
    { unfold roi. field. lra. }
    nra.
  - unfold risk_of_ruin.
    assert (Hne' : ruined finals <> []).
    { destruct finals; [congruence | discriminate]. }
    pose proof (mean_bounds 0 1 (ruined finals) Hne' (ruined_entries finals)) as [H0 H1].
    split; lra.
Qed.

Lemma X21_witness :
  exists sm max_length,
    run_simulations Scripted.shuffle Scripted.choice Scripted.cfg0 [lose; lose; win]
      = Ok sm
    /\ (1 <= max_length <= 5)%nat
    /\ length (array_results sm) = 2%nat
    /\ Forall (fun row => length row = max_length) (array_results sm)
    /\ Forall (Forall (fun b => 0 <= b)) (array_results sm)
    /\ length (summary_avg_bankroll sm) = max_length
    /\ Forall (fun b => 0 <= b) (summary_avg_bankroll sm)
    /\ length (summary_final_bankrolls sm) = 2%nat
    /\ Forall (fun b => 0 <= b) (summary_final_bankrolls sm)
    /\ -100 <= summary_roi sm
    /\ 0 <= summary_risk_of_ruin sm <= 100.
Proof.
  apply (X21_valid_batch_summary Scripted.shuffle Scripted.choice Scripted.cfg0
           [lose; lose; win] scripted_shuffle_perm); simpl; lia.
Defined.

(** X22: on a matrix whose rows all have length [max_length >= 1], the
    average trajectory has [max_length] entries and its last entry is
    the mean of the final bankrolls: the reported final average is the
    end point of the average line. *)
Theorem X22_average_ends_at_mean_final (max_length : nat)
    (rows : list (list Q)) (finals : list Q) :
  (1 <= max_length)%nat ->
  Forall (fun row => length row = max_length) rows ->
  final_bankrolls rows = Ok finals ->
  length (avg_bankroll max_length rows) = max_length
  /\ nth_error (avg_bankroll max_length rows) (max_length - 1) = Some (mean finals).
Proof.
  intros Hm Hrect Hf. unfold avg_bankroll.
  split; [now rewrite length_map, length_seq |].
  rewrite nth_error_map.
  rewrite (nth_error_nth' (seq 0 max_length) 0%nat) by (rewrite length_seq; lia).
  rewrite seq_nth by lia. cbn [option_map Nat.add].
  f_equal. f_equal.
  apply map_result_Forall2 in Hf.
  induction Hf as [| row x rows finals Hlast _ IH]; [reflexivity |].
  inversion Hrect as [| ? ? Hlen Hrest]; subst.
  cbn [map]. f_equal; [| now apply IH].
  destruct (last_item_inv row x Hlast) as [pre ->].
  rewrite length_app in Hm |- *. simpl in Hm |- *.
  replace (length pre + 1 - 1)%nat with (length pre) by lia.
  apply nth_middle.
Qed.

Lemma X22_witness :
  length (avg_bankroll 2 [[500; 0]; [1750; 1250]]) = 2%nat
  /\ nth_error (avg_bankroll 2 [[500; 0]; [1750; 1250]]) (2 - 1)
     = Some (mean [0; 1250]).
Proof.
  apply (X22_average_ends_at_mean_final 2 [[500; 0]; [1750; 1250]] [0; 1250]).
  - lia.
  - repeat constructor.
  - reflexivity.
Defined.
